(** * Cookbook API: recipes, ingredients and the view counter

    A shallow embedding of the three source files of the service:

    - [database.py]: the two tables ([Recipe], [Ingredient]) and the scoped
      session [get_db];
    - [schemas.py]: the pydantic contracts and their [Field] constraints;
    - [routes.py]: the handlers [get_all_recipes], [get_recipe_by_id] and
      [create_recipe].

    A table with an integer primary key is a finite map from the key to the
    remaining columns.  A session carries the durable state, the state seen
    by the open transaction and the unit of work that has not been flushed.
    Handlers are computations in a state-and-exception monad over the
    session, written in the order of the Python statements. *)

From stdpp Require Import gmap strings list fin_maps sorting pretty.

Open Scope Z_scope.

(** ** database.py: the tables *)

(** Columns of [recipes] other than the primary key [id]. *)
Module Recipe.
Record t := mk {
  title : string;
  cooking_time : Z;
  description : string;
  views : Z }.
End Recipe.

(** Columns of [ingredients] other than the primary key [id]. *)
Module Ingredient.
Record t := mk {
  name : string;
  quantity : string;
  recipe_id : Z }.
End Ingredient.

Record Database := {
  recipes : gmap Z Recipe.t;
  ingredients : gmap Z Ingredient.t }.

Definition empty_database : Database :=
  {| recipes := ∅; ingredients := ∅ |}.

#[global] Instance Recipe_eq_dec : EqDecision Recipe.t.
Proof. solve_decision. Defined.

#[global] Instance Ingredient_eq_dec : EqDecision Ingredient.t.
Proof. solve_decision. Defined.

(** The key an INTEGER PRIMARY KEY column receives on INSERT: one more than
    the largest key in the table, 1 in an empty table. *)
Definition next_id {A} (m : gmap Z A) : Z :=
  1 + foldr Z.max 0 (map_to_list m).*1.

(** A scan of a table yields its rows by ascending key. *)
Definition by_key {A} (a b : Z * A) : Prop := a.1 ≤ b.1.

#[global] Instance by_key_dec {A} (a b : Z * A) : Decision (by_key a b).
Proof. unfold by_key. apply _. Defined.

Definition rows {A} (m : gmap Z A) : list (Z * A) :=
  merge_sort by_key (map_to_list m).

Definition set_views (v : Z) (r : Recipe.t) : Recipe.t :=
  {| Recipe.title := Recipe.title r;
     Recipe.cooking_time := Recipe.cooking_time r;
     Recipe.description := Recipe.description r;
     Recipe.views := v |}.

(** The rows of [ingredients] that reference recipe [rid] (the relationship
    [Recipe.ingredients]), in the order the table yields them. *)
Definition ingredients_of (d : Database) (rid : Z) : list (Z * Ingredient.t) :=
  filter (λ p, Ingredient.recipe_id p.2 = rid) (rows (ingredients d)).

(** ** Exceptions *)

Inductive exn :=
  | HTTPException (status_code : Z) (detail : string)
  | RequestValidationError
  | ValidationError
  | OperationalError
  | OverflowError
  | InvalidRequestError
  | CancelledError.

#[global] Instance exn_eq_dec : EqDecision exn.
Proof. solve_decision. Defined.

(** [except Exception] catches every exception class except the ones that
    derive from [BaseException] only; of those the model has the
    cancellation of the request. *)
Definition is_Exception (e : exn) : bool :=
  match e with
  | CancelledError => false
  | _ => true
  end.

Definition HTTP_404_NOT_FOUND : Z := 404.

(** The database driver binds an [int] as a signed 64-bit integer. *)
Definition in_int64 (n : Z) : bool :=
  bool_decide (-9223372036854775808 ≤ n ≤ 9223372036854775807).

(** ** schemas.py: the contracts *)

Module IngredientCreate.
Record t := mk {
  name : string;
  quantity : string }.
End IngredientCreate.

Module IngredientResponse.
Record t := mk {
  name : string;
  quantity : string;
  id : Z }.
End IngredientResponse.

Module RecipeCreate.
Record t := mk {
  title : string;
  cooking_time : Z;
  description : string;
  ingredients : list IngredientCreate.t }.
End RecipeCreate.

Module RecipeListResponse.
Record t := mk {
  id : Z;
  title : string;
  cooking_time : Z;
  views : Z }.
End RecipeListResponse.

Module RecipeDetailResponse.
Record t := mk {
  title : string;
  cooking_time : Z;
  description : string;
  id : Z;
  views : Z;
  ingredients : list IngredientResponse.t }.
End RecipeDetailResponse.

(** A [str] is held as the bytes of its UTF-8 encoding.  A byte [10xxxxxx]
    continues a character, every other byte starts one. *)
Definition continues_character (c : Ascii.ascii) : bool :=
  match c with
  | Ascii.Ascii _ _ _ _ _ _ b6 b7 => b7 && negb b6
  end.

(** [len(s)]: the number of characters of [s]. *)
Fixpoint len (s : string) : nat :=
  match s with
  | EmptyString => 0%nat
  | String c s' => if continues_character c then len s' else S (len s')
  end.

(** [Field(..., min_length=lo)] and [Field(..., min_length=lo, max_length=hi)]
    on a [str]: bounds on the number of characters. *)
Definition min_length (lo : nat) (s : string) : bool :=
  bool_decide (lo ≤ len s)%nat.

Definition max_length (hi : nat) (s : string) : bool :=
  bool_decide (len s ≤ hi)%nat.

(** [Field(..., gt=lo)] on an [int]. *)
Definition gt (lo : Z) (n : Z) : bool := bool_decide (lo < n).

(** The constraints of [IngredientBase]. *)
Definition IngredientBase_fields (name quantity : string) : bool :=
  min_length 1 name && max_length 255 name &&
  min_length 1 quantity && max_length 100 quantity.

(** The constraints of [RecipeBase]. *)
Definition RecipeBase_fields (title : string) (cooking_time : Z)
    (description : string) : bool :=
  min_length 1 title && max_length 255 title &&
  gt 0 cooking_time &&
  min_length 10 description.

Definition IngredientCreate_valid (i : IngredientCreate.t) : bool :=
  IngredientBase_fields (IngredientCreate.name i) (IngredientCreate.quantity i).

(** Validation of a request body against [RecipeCreate]. *)
Definition RecipeCreate_valid (p : RecipeCreate.t) : bool :=
  RecipeBase_fields (RecipeCreate.title p) (RecipeCreate.cooking_time p)
    (RecipeCreate.description p) &&
  forallb IngredientCreate_valid (RecipeCreate.ingredients p).

(** [RecipeListResponse.model_validate(recipe)]: the class has no [Field]
    constraint, the four attributes are read off the object. *)
Definition RecipeListResponse_model_validate (recipe : Z * Recipe.t)
  : RecipeListResponse.t :=
  {| RecipeListResponse.id := recipe.1;
     RecipeListResponse.title := Recipe.title recipe.2;
     RecipeListResponse.cooking_time := Recipe.cooking_time recipe.2;
     RecipeListResponse.views := Recipe.views recipe.2 |}.

Definition IngredientResponse_valid (i : Z * Ingredient.t) : bool :=
  IngredientBase_fields (Ingredient.name i.2) (Ingredient.quantity i.2).

Definition IngredientResponse_of (i : Z * Ingredient.t) : IngredientResponse.t :=
  {| IngredientResponse.name := Ingredient.name i.2;
     IngredientResponse.quantity := Ingredient.quantity i.2;
     IngredientResponse.id := i.1 |}.

(** [RecipeDetailResponse.model_validate(recipe)]: the class inherits the
    constraints of [RecipeBase], and its ingredients those of
    [IngredientBase]; an object that breaks one raises. *)
Definition RecipeDetailResponse_model_validate (id : Z) (recipe : Recipe.t)
    (ingredients : list (Z * Ingredient.t)) : exn + RecipeDetailResponse.t :=
  if RecipeBase_fields (Recipe.title recipe) (Recipe.cooking_time recipe)
       (Recipe.description recipe) &&
     forallb IngredientResponse_valid ingredients
  then inr {| RecipeDetailResponse.title := Recipe.title recipe;
              RecipeDetailResponse.cooking_time := Recipe.cooking_time recipe;
              RecipeDetailResponse.description := Recipe.description recipe;
              RecipeDetailResponse.id := id;
              RecipeDetailResponse.views := Recipe.views recipe;
              RecipeDetailResponse.ingredients :=
                IngredientResponse_of <$> ingredients |}
  else inl ValidationError.

(** ** The session *)

(** What the unit of work holds until the next flush: objects given to
    [db.add] and attributes assigned on loaded objects. *)
Inductive work :=
  | INSERT_ingredient (row : Ingredient.t)
  | UPDATE_views (id : Z) (v : Z).

Record AsyncSession := {
  committed : Database;
  txn : Database;
  pending : list work;
  closed : bool }.

Definition M (A : Type) : Type := AsyncSession → AsyncSession * (exn + A).

#[global] Instance M_ret : MRet M := λ A a s, (s, inr a).

#[global] Instance M_bind : MBind M := λ A B f m s,
  match m s with
  | (s', inr a) => f a s'
  | (s', inl e) => (s', inl e)
  end.

Definition raise {A} (e : exn) : M A := λ s, (s, inl e).

Definition reads {A} (f : Database → A) : M A := λ s, (s, inr (f (txn s))).

(** A statement that the driver may refuse, run in the open transaction. *)
Definition runs {A} (f : Database → exn + A) : M A := λ s, (s, f (txn s)).

(** ** routes.py: the queries *)

(** [order_by(desc(Recipe.views), Recipe.cooking_time)] *)
Definition by_popularity (a b : Z * Recipe.t) : Prop :=
  Recipe.views b.2 < Recipe.views a.2 ∨
  (Recipe.views a.2 = Recipe.views b.2 ∧
   Recipe.cooking_time a.2 ≤ Recipe.cooking_time b.2).

#[global] Instance by_popularity_dec a b : Decision (by_popularity a b).
Proof. unfold by_popularity. apply _. Defined.

#[global] Instance by_popularity_total : Total by_popularity.
Proof. intros a b. unfold by_popularity. lia. Qed.

#[global] Instance by_popularity_trans : Transitive by_popularity.
Proof. intros a b c. unfold by_popularity. lia. Qed.

(** The same order, read on the list views of an answer. *)
Definition listed_before (a b : RecipeListResponse.t) : Prop :=
  RecipeListResponse.views b < RecipeListResponse.views a ∨
  (RecipeListResponse.views a = RecipeListResponse.views b ∧
   RecipeListResponse.cooking_time a ≤ RecipeListResponse.cooking_time b).

(** [.offset(n)]: the engine reads a negative offset as 0. *)
Definition offset {A} (n : Z) (rows : list A) : list A :=
  drop (Z.to_nat n) rows.

(** [.limit(n)]: the engine reads a negative limit as no limit. *)
Definition limit {A} (n : Z) (rows : list A) : list A :=
  if bool_decide (n < 0) then rows else take (Z.to_nat n) rows.

(** The order in which the engine yields the rows: rows equal in [views]
    and [cooking_time] come as the table scan has them, by ascending key. *)
Definition by_popularity_then_id (a b : Z * Recipe.t) : Prop :=
  Recipe.views b.2 < Recipe.views a.2 ∨
  (Recipe.views a.2 = Recipe.views b.2 ∧
   (Recipe.cooking_time a.2 < Recipe.cooking_time b.2 ∨
    (Recipe.cooking_time a.2 = Recipe.cooking_time b.2 ∧ a.1 ≤ b.1))).

#[global] Instance by_popularity_then_id_dec a b :
  Decision (by_popularity_then_id a b).
Proof. unfold by_popularity_then_id. apply _. Defined.

#[global] Instance by_popularity_then_id_total : Total by_popularity_then_id.
Proof. intros a b. unfold by_popularity_then_id. lia. Qed.

#[global] Instance by_popularity_then_id_trans :
  Transitive by_popularity_then_id.
Proof. intros a b c. unfold by_popularity_then_id. lia. Qed.

(** The rows the statement yields once its parameters are bound. *)
Definition ordered_page (skip lim : Z) (d : Database) : list (Z * Recipe.t) :=
  limit lim
    (offset skip (merge_sort by_popularity_then_id (rows (recipes d)))).

(** [select(Recipe).order_by(desc(Recipe.views), Recipe.cooking_time)
      .offset(skip).limit(limit)]: [skip] and [limit] go to the driver as
    they came, and the driver raises for one it cannot bind. *)
Definition select_recipes_ordered (skip lim : Z) (d : Database)
  : exn + list (Z * Recipe.t) :=
  if in_int64 skip && in_int64 lim
  then inr (ordered_page skip lim d)
  else inl OverflowError.

(** [select(Recipe).options(selectinload(Recipe.ingredients))
      .where(Recipe.id == recipe_id)], then [scalar_one_or_none()]: the
    primary key selects at most one row.  The keys of the table are 64-bit
    integers; for an id that is none of them and that the driver cannot
    bind, the driver raises. *)
Definition select_recipe_by_id (recipe_id : Z) (d : Database)
  : exn + option (Recipe.t * list (Z * Ingredient.t)) :=
  match recipes d !! recipe_id with
  | Some recipe => inr (Some (recipe, ingredients_of d recipe_id))
  | None => if in_int64 recipe_id then inr None else inl OverflowError
  end.

Definition not_found_detail (recipe_id : Z) : string :=
  "Рецепт с ID " +:+ pretty recipe_id +:+ " не найден".

Section Storage.

(** The verdict of the storage engine on an INSERT into [ingredients]. *)
Variable storage_accepts : Ingredient.t → bool.

Definition exec (w : work) (d : Database) : exn + Database :=
  match w with
  | INSERT_ingredient row =>
      if storage_accepts row
      then inr {| recipes := recipes d;
                  ingredients := <[next_id (ingredients d) := row]> (ingredients d) |}
      else inl OperationalError
  | UPDATE_views id v =>
      inr {| recipes := alter (set_views v) id (recipes d);
             ingredients := ingredients d |}
  end.

(** Statements are issued in the order the work was registered.  A refused
    statement has no effect; the ones before it stay in the open
    transaction. *)
Fixpoint flush_work (ws : list work) (d : Database)
  : Database * list work * (exn + ()) :=
  match ws with
  | [] => (d, [], inr ())
  | w :: ws' =>
      match exec w d with
      | inr d' => flush_work ws' d'
      | inl e => (d, ws, inl e)
      end
  end.

Definition flush : M () := λ s,
  let '(d, ws, r) := flush_work (pending s) (txn s) in
  ({| committed := committed s; txn := d; pending := ws; closed := closed s |}, r).

Definition commit : M () := λ s,
  match flush s with
  | (s1, inr _) =>
      ({| committed := txn s1; txn := txn s1; pending := [];
          closed := closed s1 |}, inr ())
  | (s1, inl e) => (s1, inl e)
  end.

Definition rollback : M () := λ s,
  ({| committed := committed s; txn := committed s; pending := [];
      closed := closed s |}, inr ()).

(** Releasing the connection ends a transaction that is still open without
    committing it. *)
Definition close : M () := λ s,
  ({| committed := committed s; txn := committed s; pending := [];
      closed := true |}, inr ()).

Definition add (w : work) : M () := λ s,
  ({| committed := committed s; txn := txn s; pending := pending s ++ [w];
      closed := closed s |}, inr ()).

(** [db.add(new_recipe)] followed by [await db.flush()]: the unit of work is
    flushed, the recipe row is inserted in the open transaction and the
    generated key is returned (the object's [id]).  The driver raises when
    it cannot bind the cooking time, and no row is inserted. *)
Definition insert_recipe (row : Recipe.t) : M Z := λ s,
  if in_int64 (Recipe.cooking_time row)
  then
    let id := next_id (recipes (txn s)) in
    ({| committed := committed s;
        txn := {| recipes := <[id := row]> (recipes (txn s));
                  ingredients := ingredients (txn s) |};
        pending := pending s; closed := closed s |}, inr id)
  else (s, inl OverflowError).

Definition add_flush_recipe (row : Recipe.t) : M Z :=
  flush;; insert_recipe row.

(** [db.execute(query)]: the session flushes before it queries. *)
Definition execute {A} (query : Database → exn + A) : M A :=
  flush;; runs query.

(** [db.refresh(obj)] re-reads the row of a persistent object. *)
Definition refresh (id : Z) : M Recipe.t :=
  row ← reads (λ d, recipes d !! id);
  match row with
  | Some r => mret r
  | None => raise InvalidRequestError
  end.

(** [db.refresh(obj, attribute_names=["ingredients"])]. *)
Definition refresh_ingredients (id : Z) : M (list (Z * Ingredient.t)) :=
  reads (λ d, ingredients_of d id).

(** [AsyncSessionLocal()] *)
Definition AsyncSessionLocal (d : Database) : AsyncSession :=
  {| committed := d; txn := d; pending := []; closed := false |}.

(** [get_db], as the scope around the code that runs at its [yield]. *)
Definition get_db {A} (scope : M A) : M A := λ session,
  let '(s1, r) := (a ← scope; commit;; mret a) session in
  let s2 :=
    match r with
    | inl e => if is_Exception e then (rollback s1).1 else s1
    | inr _ => s1
    end in
  let s3 := (close s2).1 in
  ((close s3).1, r).

(** One request: a fresh session over the stored state, the handler inside
    the scope of [get_db]; what remains is the durable state. *)
Definition request {A} (handler : M A) (d : Database) : Database * (exn + A) :=
  let '(s, r) := get_db handler (AsyncSessionLocal d) in (committed s, r).

(** ** routes.py: the handlers *)

(** [skip: int = 0, limit: int = 100]: an absent query parameter takes the
    default of the signature. *)
Definition get_all_recipes (skip lim : option Z)
  : M (list RecipeListResponse.t) :=
  let skip := default 0 skip in
  let lim := default 100 lim in
  recipes ← execute (select_recipes_ordered skip lim);
  mret (RecipeListResponse_model_validate <$> recipes).

Definition get_recipe_by_id (recipe_id : Z) : M RecipeDetailResponse.t :=
  result ← execute (select_recipe_by_id recipe_id);
  match result with
  | None =>
      raise (HTTPException HTTP_404_NOT_FOUND (not_found_detail recipe_id))
  | Some (recipe, ingredients) =>
      add (UPDATE_views recipe_id (Recipe.views recipe + 1));;
      commit;;
      recipe ← refresh recipe_id;
      match RecipeDetailResponse_model_validate recipe_id recipe ingredients with
      | inr response => mret response
      | inl e => raise e
      end
  end.

(** [Ingredient(name=ingredient.name, quantity=ingredient.quantity,
               recipe_id=new_recipe.id)] *)
Definition new_ingredient (new_id : Z) (ingredient : IngredientCreate.t)
  : Ingredient.t :=
  {| Ingredient.name := IngredientCreate.name ingredient;
     Ingredient.quantity := IngredientCreate.quantity ingredient;
     Ingredient.recipe_id := new_id |}.

(** The loop [for ingredient in recipe_data.ingredients: db.add(...)]. *)
Definition add_ingredients (new_id : Z) (l : list IngredientCreate.t) : M () :=
  foldr (λ ingredient rest,
           add (INSERT_ingredient (new_ingredient new_id ingredient));; rest)
        (mret ()) l.

(** [Recipe(title=recipe_data.title, cooking_time=recipe_data.cooking_time,
           description=recipe_data.description, views=0)] *)
Definition new_recipe (recipe_data : RecipeCreate.t) : Recipe.t :=
  {| Recipe.title := RecipeCreate.title recipe_data;
     Recipe.cooking_time := RecipeCreate.cooking_time recipe_data;
     Recipe.description := RecipeCreate.description recipe_data;
     Recipe.views := 0 |}.

Definition create_recipe (recipe_data : RecipeCreate.t)
  : M RecipeDetailResponse.t :=
  new_id ← add_flush_recipe (new_recipe recipe_data);
  add_ingredients new_id (RecipeCreate.ingredients recipe_data);;
  commit;;
  new_recipe ← refresh new_id;
  ingredients ← refresh_ingredients new_id;
  match RecipeDetailResponse_model_validate new_id new_recipe ingredients with
  | inr response => mret response
  | inl e => raise e
  end.

(** ** The three endpoints, each one request *)

Definition list_recipes (skip lim : option Z) (d : Database)
  : Database * (exn + list RecipeListResponse.t) :=
  request (get_all_recipes skip lim) d.

Definition get_recipe (recipe_id : Z) (d : Database)
  : Database * (exn + RecipeDetailResponse.t) :=
  request (get_recipe_by_id recipe_id) d.

(** The body of [POST /recipes] is validated against [RecipeCreate] before
    the handler and its session exist. *)
Definition post_recipe (body : RecipeCreate.t) (d : Database)
  : Database * (exn + RecipeDetailResponse.t) :=
  if RecipeCreate_valid body
  then request (create_recipe body) d
  else (d, inl RequestValidationError).

(** ** The service as a transition system *)

Inductive api_call :=
  | ListRecipes (skip lim : option Z)
  | GetRecipe (recipe_id : Z)
  | PostRecipe (body : RecipeCreate.t).

(** The stored state a call leaves behind. *)
Definition after (c : api_call) (d : Database) : Database :=
  match c with
  | ListRecipes skip lim => (list_recipes skip lim d).1
  | GetRecipe recipe_id => (get_recipe recipe_id d).1
  | PostRecipe body => (post_recipe body d).1
  end.


Inductive reachable : Database → Prop :=
  | reachable_start : reachable empty_database
  | reachable_call c d : reachable d → reachable (after c d).

(** Rows written through the API meet the constraints of the contract they
    came from, and every ingredient references a stored recipe. *)
Definition Recipe_fields_ok (r : Recipe.t) : Prop :=
  RecipeBase_fields (Recipe.title r) (Recipe.cooking_time r)
    (Recipe.description r) = true.

Definition Ingredient_fields_ok (i : Ingredient.t) : Prop :=
  IngredientBase_fields (Ingredient.name i) (Ingredient.quantity i) = true.

Definition consistent (d : Database) : Prop :=
  map_Forall (λ _ r, Recipe_fields_ok r) (recipes d) ∧
  map_Forall (λ _ i, Ingredient_fields_ok i ∧
                     is_Some (recipes d !! Ingredient.recipe_id i))
             (ingredients d).

(** Generated keys start at 1. *)
Definition keys_positive (d : Database) : Prop :=
  (∀ id, is_Some (recipes d !! id) → 0 < id) ∧
  (∀ k, is_Some (ingredients d !! k) → 0 < k).

Definition views_nonneg (d : Database) : Prop :=
  map_Forall (λ _ r, 0 ≤ Recipe.views r) (recipes d).

#[global] Instance Recipe_fields_ok_dec r : Decision (Recipe_fields_ok r).
Proof. unfold Recipe_fields_ok. apply _. Defined.

#[global] Instance Ingredient_fields_ok_dec i : Decision (Ingredient_fields_ok i).
Proof. unfold Ingredient_fields_ok. apply _. Defined.

#[global] Instance consistent_dec d : Decision (consistent d).
Proof. unfold consistent. apply _. Defined.

#[global] Instance views_nonneg_dec d : Decision (views_nonneg d).
Proof. unfold views_nonneg. apply _. Defined.

(** The table after the INSERTs of [l], each at the key the engine
    generates. *)
Definition insert_all {A} (l : list A) (m : gmap Z A) : gmap Z A :=
  foldl (λ t row, <[next_id t := row]> t) m l.

(** The ingredient rows [create_recipe] registers for [body]. *)
Definition new_ingredients (body : RecipeCreate.t) (new_id : Z)
  : list Ingredient.t :=
  new_ingredient new_id <$> RecipeCreate.ingredients body.

(** What the contracts call out of range for a bounded string. *)
Definition too_long_or_empty (hi : nat) (s : string) : Prop :=
  len s = 0%nat ∨ (hi < len s)%nat.

(** The bodies [POST /recipes] is said to reject. *)
Definition rejected_input (body : RecipeCreate.t) : Prop :=
  too_long_or_empty 255 (RecipeCreate.title body) ∨
  RecipeCreate.cooking_time body ≤ 0 ∨
  (len (RecipeCreate.description body) < 10)%nat ∨
  Exists (λ i, too_long_or_empty 255 (IngredientCreate.name i) ∨
               too_long_or_empty 100 (IngredientCreate.quantity i))
         (RecipeCreate.ingredients body).

(** The stored state after a creation that went through. *)
Definition created (body : RecipeCreate.t) (d : Database) : Database :=
  let new_id := next_id (recipes d) in
  {| recipes := <[new_id := new_recipe body]> (recipes d);
     ingredients := insert_all (new_ingredients body new_id) (ingredients d) |}.

(** The stored state after a detail read of recipe [id], stored as [r]. *)
Definition viewed (id : Z) (r : Recipe.t) (d : Database) : Database :=
  {| recipes := <[id := set_views (Recipe.views r + 1) r]> (recipes d);
     ingredients := ingredients d |}.

(** ** Sample data *)

(** Three recipes equal in views and cooking time. *)
Definition triplets : Database :=
  {| recipes := {[ 3 := Recipe.mk "Third" 10 "The third of three" 0;
                   1 := Recipe.mk "First" 10 "The first of three" 0;
                   2 := Recipe.mk "Second" 10 "The second of three" 0 ]};
     ingredients := ∅ |}.

(** A body whose cooking time is [2^63]. *)
Definition slow_water : RecipeCreate.t :=
  RecipeCreate.mk "Water" 9223372036854775808 "Just plain water" [].

(** An engine that refuses every INSERT into [ingredients]. *)
Definition refuse_all (_ : Ingredient.t) : bool := false.

(** A body without ingredients. *)
Definition water : RecipeCreate.t :=
  RecipeCreate.mk "Water" 1 "Just plain water" [].

(** A table with a row written past the API: its description has 3
    characters. *)
Definition stale : Database :=
  {| recipes := {[ 1 := Recipe.mk "Tea" 3 "Hot" 0 ]}; ingredients := ∅ |}.

(** An engine that accepts every INSERT, and one that refuses salt. *)
Definition accept_all (_ : Ingredient.t) : bool := true.

Definition refuse_salt (row : Ingredient.t) : bool :=
  bool_decide (Ingredient.name row ≠ "Salt").

Definition soup : RecipeCreate.t :=
  RecipeCreate.mk "Soup" 20 "Salted water, boiled"
    [IngredientCreate.mk "Salt" "1 tsp"].

Definition soup_row : Recipe.t :=
  Recipe.mk "Soup" 20 "Salted water, boiled" 0.

Definition salt_row : Ingredient.t := Ingredient.mk "Salt" "1 tsp" 1.

(** Storage after [soup] was posted to the empty service. *)
Definition soup_stored : Database :=
  {| recipes := {[ 1 := soup_row ]}; ingredients := {[ 1 := salt_row ]} |}.

Definition soup_detail (views : Z) : RecipeDetailResponse.t :=
  {| RecipeDetailResponse.title := "Soup";
     RecipeDetailResponse.cooking_time := 20;
     RecipeDetailResponse.description := "Salted water, boiled";
     RecipeDetailResponse.id := 1;
     RecipeDetailResponse.views := views;
     RecipeDetailResponse.ingredients :=
       [ {| IngredientResponse.name := "Salt";
            IngredientResponse.quantity := "1 tsp";
            IngredientResponse.id := 1 |} ] |}.

(** Three recipes: two with no views, one read twice. *)
Definition shelf : Database :=
  {| recipes := {[ 1 := Recipe.mk "Stew" 90 "Slow and steady stew" 0;
                   2 := Recipe.mk "Toast" 5 "Bread, heat, butter" 0;
                   3 := Recipe.mk "Salad" 10 "Leaves with dressing" 2 ]};
     ingredients := ∅ |}.

(** A body whose description has 5 characters. *)
Definition terse : RecipeCreate.t :=
  RecipeCreate.mk "Soup" 20 "Short" [IngredientCreate.mk "Salt" "1 tsp"].

(** A scope that leaves an assignment to [views] unflushed. *)
Definition dirty_session : AsyncSession :=
  {| committed := soup_stored; txn := soup_stored;
     pending := [UPDATE_views 1 7]; closed := false |}.

(** * Properties *)

(** ** Tables and keys *)

Lemma rows_Permutation {A} (m : gmap Z A) : rows m ≡ₚ map_to_list m.
Proof. apply merge_sort_Permutation. Qed.

Lemma elem_of_rows {A} (m : gmap Z A) k x :
  (k, x) ∈ rows m ↔ m !! k = Some x.
Proof. rewrite rows_Permutation. apply elem_of_map_to_list. Qed.

Lemma foldr_max_bound (l : list Z) k : k ∈ l → k ≤ foldr Z.max 0 l.
Proof.
  induction l as [|x l IH]; intros Hk; [by apply elem_of_nil in Hk|].
  apply elem_of_cons in Hk as [->|Hk]; simpl; [lia|].
  specialize (IH Hk). lia.
Qed.

Lemma next_id_above {A} (m : gmap Z A) k : is_Some (m !! k) → k < next_id m.
Proof.
  intros [x Hx]. unfold next_id.
  apply elem_of_map_to_list in Hx.
  assert (k ≤ foldr Z.max 0 (map_to_list m).*1); [|lia].
  apply foldr_max_bound, list_elem_of_fmap. by exists (k, x).
Qed.

Lemma next_id_fresh {A} (m : gmap Z A) : m !! next_id m = None.
Proof.
  destruct (m !! next_id m) eqn:E; [|done].
  assert (next_id m < next_id m) by eauto using next_id_above. lia.
Qed.

Lemma next_id_positive {A} (m : gmap Z A) : 0 < next_id m.
Proof.
  unfold next_id. generalize ((map_to_list m).*1). intros l.
  assert (0 ≤ foldr Z.max 0 l); [|lia].
  induction l; simpl; lia.
Qed.

(** ** The session *)

Lemma session_eta s :
  {| committed := committed s; txn := txn s; pending := pending s;
     closed := closed s |} = s.
Proof. by destruct s. Qed.

Lemma flush_idle s : pending s = [] → flush s = (s, inr ()).
Proof. destruct s; simpl; intros ->; reflexivity. Qed.

Lemma commit_idle s :
  pending s = [] →
  commit s = ({| committed := txn s; txn := txn s; pending := [];
                 closed := closed s |}, inr ()).
Proof. intros H. unfold commit. by rewrite flush_idle. Qed.

Lemma bind_unfold {A B} (m : M A) (f : A → M B) s :
  (m ≫= f) s = match m s with
               | (s', inr a) => f a s'
               | (s', inl e) => (s', inl e)
               end.
Proof. reflexivity. Qed.

Ltac run_session :=
  repeat (progress (unfold mbind, M_bind, mret, M_ret, raise, add, commit,
                      flush, rollback, close, refresh, refresh_ingredients,
                      reads; simpl)).

Lemma alter_views_found (m : gmap Z Recipe.t) id r v :
  m !! id = Some r → alter (set_views v) id m = <[id := set_views v r]> m.
Proof.
  intros H. apply map_eq; intros j. rewrite lookup_alter, lookup_insert.
  destruct (decide (id = j)) as [->|]; [by rewrite H|done].
Qed.

Lemma get_recipe_by_id_found d id r :
  recipes d !! id = Some r →
  let d' := {| recipes := <[id := set_views (Recipe.views r + 1) r]> (recipes d);
               ingredients := ingredients d |} in
  get_recipe_by_id id (AsyncSessionLocal d) =
    ({| committed := d'; txn := d'; pending := []; closed := false |},
     RecipeDetailResponse_model_validate id
       (set_views (Recipe.views r + 1) r) (ingredients_of d id)).
Proof.
  intros Hr d'. unfold get_recipe_by_id, execute.
  rewrite !bind_unfold, flush_idle by done.
  unfold runs, select_recipe_by_id. simpl. rewrite Hr. simpl.
  run_session. rewrite (alter_views_found _ _ _ _ Hr).
  run_session. rewrite lookup_insert_eq. fold d'. by destruct (RecipeDetailResponse_model_validate _ _ _).
Qed.

(** What [get_db] leaves of a handler that raised, and of one that returned
    with an empty unit of work. *)
Lemma request_raise {A} (h : M A) d s e :
  h (AsyncSessionLocal d) = (s, inl e) → request h d = (committed s, inl e).
Proof.
  intros H. unfold request, get_db. rewrite bind_unfold, H.
  by destruct (is_Exception e).
Qed.

Lemma request_return {A} (h : M A) d s a :
  h (AsyncSessionLocal d) = (s, inr a) → pending s = [] →
  request h d = (txn s, inr a).
Proof.
  intros H Hp. unfold request, get_db. rewrite bind_unfold, H.
  rewrite bind_unfold, commit_idle by done. reflexivity.
Qed.

(** ** [get_recipe] *)

Lemma ingredients_of_fields_ok d id :
  consistent d → forallb IngredientResponse_valid (ingredients_of d id) = true.
Proof.
  intros [_ Hi]. apply forallb_forall. intros [k i] Hk%list_elem_of_In.
  apply list_elem_of_filter in Hk as [_ Hk]. apply elem_of_rows in Hk.
  by destruct (Hi _ _ Hk).
Qed.

Lemma detail_of_stored d id r v :
  consistent d → recipes d !! id = Some r →
  RecipeDetailResponse_model_validate id (set_views v r) (ingredients_of d id) =
    inr {| RecipeDetailResponse.title := Recipe.title r;
           RecipeDetailResponse.cooking_time := Recipe.cooking_time r;
           RecipeDetailResponse.description := Recipe.description r;
           RecipeDetailResponse.id := id;
           RecipeDetailResponse.views := v;
           RecipeDetailResponse.ingredients :=
             IngredientResponse_of <$> ingredients_of d id |}.
Proof.
  intros Hc Hr. unfold RecipeDetailResponse_model_validate. simpl.
  rewrite ingredients_of_fields_ok by done.
  destruct Hc as [Hc _]. specialize (Hc _ _ Hr). unfold Recipe_fields_ok in Hc.
  by rewrite Hc.
Qed.

Lemma get_recipe_found d id r :
  recipes d !! id = Some r →
  get_recipe id d =
    (viewed id r d,
     RecipeDetailResponse_model_validate id
       (set_views (Recipe.views r + 1) r) (ingredients_of d id)).
Proof.
  intros Hr. unfold get_recipe.
  pose proof (get_recipe_by_id_found d id r Hr) as Hrun. simpl in Hrun.
  destruct (RecipeDetailResponse_model_validate _ _ _) as [e|a] eqn:Hv.
  - by rewrite (request_raise _ _ _ _ Hrun).
  - by rewrite (request_return _ _ _ _ Hrun).
Qed.

Lemma get_recipe_absent d id :
  recipes d !! id = None →
  get_recipe id d =
    (d, inl (if in_int64 id
             then HTTPException HTTP_404_NOT_FOUND (not_found_detail id)
             else OverflowError)).
Proof.
  intros Hr. unfold get_recipe.
  apply (request_raise _ d (AsyncSessionLocal d)).
  unfold get_recipe_by_id, execute.
  rewrite !bind_unfold, flush_idle by done.
  unfold runs, select_recipe_by_id. simpl. rewrite Hr.
  by destruct (in_int64 id).
Qed.

Lemma get_recipe_missing d id :
  recipes d !! id = None → in_int64 id = true →
  get_recipe id d =
    (d, inl (HTTPException HTTP_404_NOT_FOUND (not_found_detail id))).
Proof. intros Hr Hid. by rewrite (get_recipe_absent _ _ Hr), Hid. Qed.

Lemma get_recipe_overflow d id :
  recipes d !! id = None → in_int64 id = false →
  get_recipe id d = (d, inl OverflowError).
Proof. intros Hr Hid. by rewrite (get_recipe_absent _ _ Hr), Hid. Qed.

(** ** [list_recipes] *)

Lemma list_recipes_run skip lim d :
  list_recipes skip lim d =
    (d, if in_int64 (default 0 skip) && in_int64 (default 100 lim)
        then inr (RecipeListResponse_model_validate <$>
                    ordered_page (default 0 skip) (default 100 lim) d)
        else inl OverflowError).
Proof.
  unfold list_recipes.
  destruct (in_int64 (default 0 skip) && in_int64 (default 100 lim)) eqn:Hb.
  - apply (request_return _ d (AsyncSessionLocal d)); [|done].
    unfold get_all_recipes, execute.
    rewrite !bind_unfold, flush_idle by done.
    unfold runs, select_recipes_ordered. by rewrite Hb.
  - apply (request_raise _ d (AsyncSessionLocal d)).
    unfold get_all_recipes, execute.
    rewrite !bind_unfold, flush_idle by done.
    unfold runs, select_recipes_ordered. by rewrite Hb.
Qed.

Lemma list_recipes_in_range skip lim d :
  in_int64 (default 0 skip) = true → in_int64 (default 100 lim) = true →
  list_recipes skip lim d =
    (d, inr (RecipeListResponse_model_validate <$>
               ordered_page (default 0 skip) (default 100 lim) d)).
Proof. intros Hs Hl. by rewrite list_recipes_run, Hs, Hl. Qed.

Lemma list_recipes_answered skip lim d d' page :
  list_recipes skip lim d = (d', inr page) →
  d' = d ∧
  page = RecipeListResponse_model_validate <$>
           ordered_page (default 0 skip) (default 100 lim) d.
Proof.
  rewrite list_recipes_run. destruct (_ && _); by intros [= <- <-].
Qed.

Lemma in_int64_true n :
  in_int64 n = true ↔ -9223372036854775808 ≤ n ≤ 9223372036854775807.
Proof. unfold in_int64. by rewrite bool_decide_eq_true. Qed.

(** ** [create_recipe] *)

Lemma add_ingredients_run new_id l s :
  add_ingredients new_id l s =
    ({| committed := committed s; txn := txn s;
        pending := pending s ++ (INSERT_ingredient <$> (new_ingredient new_id <$> l));
        closed := closed s |}, inr ()).
Proof.
  revert s. induction l as [|i l IH]; intros s; simpl.
  - by rewrite app_nil_r, session_eta.
  - rewrite bind_unfold. unfold add at 1. rewrite IH. simpl.
    by rewrite <- app_assoc.
Qed.

Lemma flush_inserts_accepted l d :
  forallb storage_accepts l = true →
  flush_work (INSERT_ingredient <$> l) d =
    ({| recipes := recipes d; ingredients := insert_all l (ingredients d) |},
     [], inr ()).
Proof.
  revert d. induction l as [|row l IH]; intros d H; simpl.
  - by destruct d.
  - apply andb_true_iff in H as [Ha Hl]. rewrite Ha. by rewrite IH.
Qed.

Lemma flush_inserts_refused l d :
  forallb storage_accepts l = false →
  ∃ d' ws,
    flush_work (INSERT_ingredient <$> l) d = (d', ws, inl OperationalError) ∧
    recipes d' = recipes d.
Proof.
  revert d. induction l as [|row l IH]; intros d H; simpl in *; [done|].
  destruct (storage_accepts row) eqn:E; simpl in *; [|by eauto].
  destruct (IH {| recipes := recipes d;
                  ingredients := <[next_id (ingredients d) := row]> (ingredients d) |}
               H) as (d' & ws & Heq & Hd').
  exists d', ws. split; [exact Heq|exact Hd'].
Qed.

Lemma insert_recipe_in_range row s :
  in_int64 (Recipe.cooking_time row) = true →
  insert_recipe row s =
    ({| committed := committed s;
        txn := {| recipes := <[next_id (recipes (txn s)) := row]> (recipes (txn s));
                  ingredients := ingredients (txn s) |};
        pending := pending s; closed := closed s |},
     inr (next_id (recipes (txn s)))).
Proof. intros H. unfold insert_recipe. by rewrite H. Qed.

Lemma create_recipe_accepted body d :
  let new_id := next_id (recipes d) in
  in_int64 (RecipeCreate.cooking_time body) = true →
  forallb storage_accepts (new_ingredients body new_id) = true →
  create_recipe body (AsyncSessionLocal d) =
    ({| committed := created body d; txn := created body d; pending := [];
        closed := false |},
     RecipeDetailResponse_model_validate new_id (new_recipe body)
       (ingredients_of (created body d) new_id)).
Proof.
  intros new_id Hct Hok. unfold create_recipe, add_flush_recipe.
  rewrite !bind_unfold, flush_idle by done.
  rewrite insert_recipe_in_range by done. simpl. fold new_id.
  rewrite bind_unfold, add_ingredients_run. simpl.
  rewrite bind_unfold. unfold commit, flush. simpl.
  fold (new_ingredients body new_id).
  rewrite flush_inserts_accepted by done. simpl.
  run_session. rewrite lookup_insert_eq. fold (created body d).
  by destruct (RecipeDetailResponse_model_validate _ _ _).
Qed.

Lemma create_recipe_refused body d :
  in_int64 (RecipeCreate.cooking_time body) = true →
  forallb storage_accepts (new_ingredients body (next_id (recipes d))) = false →
  ∃ s, create_recipe body (AsyncSessionLocal d) = (s, inl OperationalError) ∧
       committed s = d ∧
       recipes (txn s) !! next_id (recipes d) = Some (new_recipe body).
Proof.
  intros Hct Hno. unfold create_recipe, add_flush_recipe.
  rewrite !bind_unfold, flush_idle by done.
  rewrite insert_recipe_in_range by done. simpl.
  rewrite bind_unfold, add_ingredients_run. simpl.
  rewrite bind_unfold. unfold commit, flush. simpl.
  fold (new_ingredients body (next_id (recipes d))).
  destruct (flush_inserts_refused _
    {| recipes := <[next_id (recipes d) := new_recipe body]> (recipes d);
       ingredients := ingredients d |} Hno) as (d' & ws & -> & Hd').
  simpl. eexists. split; [reflexivity|]. simpl. split; [done|].
  rewrite Hd'. simpl. apply lookup_insert_eq.
Qed.

Lemma post_recipe_accepted body d :
  RecipeCreate_valid body = true →
  in_int64 (RecipeCreate.cooking_time body) = true →
  forallb storage_accepts (new_ingredients body (next_id (recipes d))) = true →
  post_recipe body d =
    (created body d,
     RecipeDetailResponse_model_validate (next_id (recipes d)) (new_recipe body)
       (ingredients_of (created body d) (next_id (recipes d)))).
Proof.
  intros Hv Hct Hok. unfold post_recipe. rewrite Hv.
  pose proof (create_recipe_accepted body d Hct Hok) as Hrun. simpl in Hrun.
  destruct (RecipeDetailResponse_model_validate _ _ _) as [e|a] eqn:Hm.
  - by rewrite (request_raise _ _ _ _ Hrun).
  - by rewrite (request_return _ _ _ _ Hrun).
Qed.

Lemma post_recipe_refused body d :
  RecipeCreate_valid body = true →
  in_int64 (RecipeCreate.cooking_time body) = true →
  forallb storage_accepts (new_ingredients body (next_id (recipes d))) = false →
  post_recipe body d = (d, inl OperationalError).
Proof.
  intros Hv Hct Hno. unfold post_recipe. rewrite Hv.
  destruct (create_recipe_refused body d Hct Hno) as (s & Hrun & Hs & _).
  by rewrite (request_raise _ _ _ _ Hrun), Hs.
Qed.

Lemma post_recipe_overflow body d :
  RecipeCreate_valid body = true →
  in_int64 (RecipeCreate.cooking_time body) = false →
  post_recipe body d = (d, inl OverflowError).
Proof.
  intros Hv Hct. unfold post_recipe. rewrite Hv.
  apply (request_raise _ d (AsyncSessionLocal d)).
  unfold create_recipe, add_flush_recipe.
  rewrite !bind_unfold, flush_idle by done.
  unfold insert_recipe. simpl. by rewrite Hct.
Qed.

Lemma post_recipe_invalid body d :
  RecipeCreate_valid body = false →
  post_recipe body d = (d, inl RequestValidationError).
Proof. intros Hv. unfold post_recipe. by rewrite Hv. Qed.

(** ** Generated keys and the rows already stored *)

Lemma insert_all_lookup_old {A} (l : list A) (m : gmap Z A) k x :
  m !! k = Some x → insert_all l m !! k = Some x.
Proof.
  revert m. induction l as [|row l IH]; intros m H; simpl; [done|].
  apply IH. rewrite lookup_insert_ne; [done|].
  intros E. by rewrite <- E, next_id_fresh in H.
Qed.

Lemma insert_all_lookup {A} (l : list A) (m : gmap Z A) k x :
  insert_all l m !! k = Some x → m !! k = Some x ∨ x ∈ l.
Proof.
  revert m. induction l as [|row l IH]; intros m H; simpl in *; [by left|].
  apply IH in H as [H|H].
  - rewrite lookup_insert in H. case_decide; simplify_eq.
    + right. apply elem_of_cons. by left.
    + by left.
  - right. apply elem_of_cons. by right.
Qed.

Lemma insert_all_values {A} (l : list A) (m : gmap Z A) :
  (map_to_list (insert_all l m)).*2 ≡ₚ l ++ (map_to_list m).*2.
Proof.
  revert m. induction l as [|row l IH]; intros m; simpl; [done|].
  rewrite IH, map_to_list_insert by apply next_id_fresh. simpl.
  by rewrite Permutation_middle.
Qed.

Lemma filter_snd {A B} (Q : B → Prop) `{!∀ x, Decision (Q x)}
    (l : list (A * B)) :
  (filter (λ p, Q p.2) l).*2 = filter Q l.*2.
Proof.
  induction l as [|[a b] l IH]; [done|].
  rewrite fmap_cons, !filter_cons. simpl.
  case_decide; rewrite ?fmap_cons; simpl; by rewrite IH.
Qed.

Lemma filter_all {A} (P : A → Prop) `{!∀ x, Decision (P x)} (l : list A) :
  Forall P l → filter P l = l.
Proof.
  induction 1 as [|x l Hx Hl IH]; [done|].
  rewrite filter_cons, decide_True by done. by rewrite IH.
Qed.

Lemma filter_none {A} (P : A → Prop) `{!∀ x, Decision (P x)} (l : list A) :
  Forall (λ x, ¬ P x) l → filter P l = [].
Proof.
  induction 1 as [|x l Hx Hl IH]; [done|].
  by rewrite filter_cons, decide_False.
Qed.

Lemma ingredients_of_rows d rid :
  (ingredients_of d rid).*2 ≡ₚ
    filter (λ i, Ingredient.recipe_id i = rid) (map_to_list (ingredients d)).*2.
Proof.
  unfold ingredients_of.
  pose proof (filter_snd (λ i, Ingredient.recipe_id i = rid)
                (rows (ingredients d))) as E.
  etrans; [apply reflexive_eq, E|]. by rewrite rows_Permutation.
Qed.

(** A new recipe owns the ingredients of its creation and no others. *)
Lemma created_ingredients body d :
  consistent d →
  (ingredients_of (created body d) (next_id (recipes d))).*2 ≡ₚ
    new_ingredients body (next_id (recipes d)).
Proof.
  intros [_ Hi]. rewrite ingredients_of_rows. simpl.
  rewrite insert_all_values, filter_app.
  rewrite filter_all, filter_none; [by rewrite app_nil_r| |].
  - apply Forall_forall. intros i Hin Heq.
    apply list_elem_of_fmap in Hin as ([k i'] & -> & Hin).
    apply elem_of_map_to_list in Hin. destruct (Hi _ _ Hin) as [_ [r Hr]].
    simpl in Heq. rewrite Heq in Hr. by rewrite next_id_fresh in Hr.
  - apply Forall_forall. intros i Hin.
    by apply list_elem_of_fmap in Hin as (i' & -> & _).
Qed.

(** ** The invariants *)

Lemma consistent_empty : consistent empty_database.
Proof. split; apply map_Forall_empty. Qed.

Lemma new_recipe_fields_ok body :
  RecipeCreate_valid body = true → Recipe_fields_ok (new_recipe body).
Proof.
  unfold RecipeCreate_valid, Recipe_fields_ok. simpl.
  by intros [H _]%andb_true_iff.
Qed.

Lemma new_ingredients_fields_ok body new_id i :
  RecipeCreate_valid body = true → i ∈ new_ingredients body new_id →
  Ingredient_fields_ok i ∧ Ingredient.recipe_id i = new_id.
Proof.
  unfold RecipeCreate_valid. intros [_ H]%andb_true_iff Hin.
  apply list_elem_of_fmap in Hin as (c & -> & Hc). split; [|done].
  rewrite forallb_forall in H. apply H. by apply list_elem_of_In.
Qed.

Lemma consistent_created body d :
  RecipeCreate_valid body = true → consistent d → consistent (created body d).
Proof.
  intros Hv [Hr Hi]. split; simpl.
  - apply map_Forall_insert_2; [by apply new_recipe_fields_ok|done].
  - intros k i Hk. apply insert_all_lookup in Hk as [Hk|Hk].
    + destruct (Hi _ _ Hk) as [Hf [r Hrec]]. split; [done|].
      rewrite lookup_insert_ne; [by eexists|].
      intros E. by rewrite <- E, next_id_fresh in Hrec.
    + destruct (new_ingredients_fields_ok _ _ _ Hv Hk) as [Hf ->].
      split; [done|]. rewrite lookup_insert_eq. by eexists.
Qed.

Lemma consistent_viewed id r d :
  recipes d !! id = Some r → consistent d → consistent (viewed id r d).
Proof.
  intros Hid [Hr Hi]. split; simpl.
  - apply map_Forall_insert_2; [|done]. exact (Hr _ _ Hid).
  - intros k i Hk. destruct (Hi _ _ Hk) as [Hf Hrec]. split; [done|].
    rewrite lookup_insert. by case_decide.
Qed.

(** What each call leaves in storage. *)
Lemma after_cases c d :
  after c d = d ∨
  (∃ id r, c = GetRecipe id ∧ recipes d !! id = Some r ∧
           after c d = viewed id r d) ∨
  (∃ body, c = PostRecipe body ∧ RecipeCreate_valid body = true ∧
           after c d = created body d).
Proof.
  destruct c as [skip lim|id|body]; unfold after.
  - left. by rewrite list_recipes_run.
  - destruct (recipes d !! id) as [r|] eqn:Hr.
    + right. left. exists id, r. by rewrite (get_recipe_found _ _ _ Hr).
    + left. by rewrite get_recipe_absent.
  - destruct (RecipeCreate_valid body) eqn:Hv.
    + destruct (in_int64 (RecipeCreate.cooking_time body)) eqn:Hct;
        [|left; by rewrite post_recipe_overflow].
      destruct (forallb storage_accepts
                  (new_ingredients body (next_id (recipes d)))) eqn:Hok.
      * right. right. exists body. by rewrite post_recipe_accepted.
      * left. by rewrite post_recipe_refused.
    + left. by rewrite post_recipe_invalid.
Qed.

Lemma consistent_after c d : consistent d → consistent (after c d).
Proof.
  intros Hc.
  destruct (after_cases c d) as [->|[(id & r & _ & Hr & ->)|(b & _ & Hv & ->)]];
    [done|by apply consistent_viewed|by apply consistent_created].
Qed.

Lemma reachable_consistent d : reachable d → consistent d.
Proof.
  induction 1; [apply consistent_empty|by apply consistent_after].
Qed.

(** ** Detail reads and the round trip *)

Lemma set_views_same r : set_views (Recipe.views r) r = r.
Proof. by destruct r. Qed.

Lemma set_views_twice v w r : set_views v (set_views w r) = set_views v r.
Proof. reflexivity. Qed.

(** [N] detail reads of the same recipe, one after the other. *)
Lemma get_recipe_iter d id r (N : nat) :
  recipes d !! id = Some r →
  let dN := Nat.iter N (λ x, (get_recipe id x).1) d in
  recipes dN !! id = Some (set_views (Recipe.views r + Z.of_nat N) r) ∧
  ingredients dN = ingredients d ∧
  (consistent d → consistent dN).
Proof.
  intros Hr. induction N as [|N IH].
  - simpl. rewrite Z.add_0_r, set_views_same. done.
  - destruct IH as (IHr & IHi & IHc). rewrite Nat.iter_succ.
    cbv zeta. rewrite (get_recipe_found _ _ _ IHr). simpl.
    rewrite lookup_insert_eq. split_and!.
    + f_equal. unfold set_views. simpl. f_equal. lia.
    + done.
    + intros Hc. by apply (consistent_viewed _ _ _ IHr), IHc.
Qed.

(** C1: a detail read of a stored recipe adds exactly 1 to its stored
    [views], inside the handler's own transaction (when the handler is done
    the durable state holds the new counter and nothing is pending), and
    returns the detail view of the recipe with [views] equal to the value
    stored before plus 1.  After [N] reads in a row the stored counter is
    [N] higher, and the next read returns the counter stored before it
    plus 1. *)
Theorem get_recipe_counts_each_read d id r :
  consistent d → recipes d !! id = Some r →
  let response :=
    {| RecipeDetailResponse.title := Recipe.title r;
       RecipeDetailResponse.cooking_time := Recipe.cooking_time r;
       RecipeDetailResponse.description := Recipe.description r;
       RecipeDetailResponse.id := id;
       RecipeDetailResponse.views := Recipe.views r + 1;
       RecipeDetailResponse.ingredients :=
         IngredientResponse_of <$> ingredients_of d id |} in
  get_recipe_by_id id (AsyncSessionLocal d) =
    ({| committed := viewed id r d; txn := viewed id r d; pending := [];
        closed := false |}, inr response) ∧
  get_recipe id d = (viewed id r d, inr response) ∧
  recipes (get_recipe id d).1 !! id = Some (set_views (Recipe.views r + 1) r) ∧
  ∀ N : nat,
    let dN := Nat.iter N (λ x, (get_recipe id x).1) d in
    ∃ rN answer,
      recipes dN !! id = Some rN ∧
      Recipe.views rN = Recipe.views r + Z.of_nat N ∧
      (get_recipe id dN).2 = inr answer ∧
      RecipeDetailResponse.views answer = Recipe.views rN + 1.
Proof.
  intros Hc Hr response.
  pose proof (detail_of_stored d id r (Recipe.views r + 1) Hc Hr) as Hv.
  fold response in Hv. split_and!.
  - pose proof (get_recipe_by_id_found d id r Hr) as Hrun. simpl in Hrun.
    by rewrite Hrun, Hv.
  - by rewrite (get_recipe_found _ _ _ Hr), Hv.
  - rewrite (get_recipe_found _ _ _ Hr). simpl. apply lookup_insert_eq.
  - intros N dN. destruct (get_recipe_iter d id r N Hr) as (HrN & _ & HcN).
    fold dN in HrN, HcN. eexists _, _. split; [exact HrN|]. split; [done|].
    rewrite (get_recipe_found _ _ _ HrN). simpl.
    rewrite set_views_twice.
    rewrite <- (set_views_twice _ (Recipe.views r + Z.of_nat N) r).
    rewrite (detail_of_stored dN id _ _ (HcN Hc) HrN). done.
Qed.

(** A creation that answered went through validation and storage. *)
Lemma post_recipe_answered body d d1 answer :
  post_recipe body d = (d1, inr answer) →
  RecipeCreate_valid body = true ∧
  in_int64 (RecipeCreate.cooking_time body) = true ∧
  forallb storage_accepts (new_ingredients body (next_id (recipes d))) = true.
Proof.
  intros H. destruct (RecipeCreate_valid body) eqn:Hv.
  - split; [done|].
    destruct (in_int64 (RecipeCreate.cooking_time body)) eqn:Hct;
      [|by rewrite post_recipe_overflow in H].
    split; [done|].
    destruct (forallb storage_accepts _) eqn:Hok; [done|].
    by rewrite post_recipe_refused in H.
  - by rewrite post_recipe_invalid in H.
Qed.

Lemma created_detail body d :
  consistent d → RecipeCreate_valid body = true →
  ∀ v,
  RecipeDetailResponse_model_validate (next_id (recipes d))
    (set_views v (new_recipe body))
    (ingredients_of (created body d) (next_id (recipes d))) =
  inr {| RecipeDetailResponse.title := RecipeCreate.title body;
         RecipeDetailResponse.cooking_time := RecipeCreate.cooking_time body;
         RecipeDetailResponse.description := RecipeCreate.description body;
         RecipeDetailResponse.id := next_id (recipes d);
         RecipeDetailResponse.views := v;
         RecipeDetailResponse.ingredients :=
           IngredientResponse_of <$>
             ingredients_of (created body d) (next_id (recipes d)) |}.
Proof.
  intros Hc Hv v.
  apply (detail_of_stored (created body d) _ (new_recipe body) v).
  - by apply consistent_created.
  - simpl. apply lookup_insert_eq.
Qed.

(** The one ingredient of a recipe created with one ingredient. *)
Lemma created_single_ingredient d title cooking_time description i :
  consistent d →
  let body := RecipeCreate.mk title cooking_time description [i] in
  ∃ ingredient_id,
    IngredientResponse_of <$>
      ingredients_of (created body d) (next_id (recipes d)) =
    [ {| IngredientResponse.name := IngredientCreate.name i;
         IngredientResponse.quantity := IngredientCreate.quantity i;
         IngredientResponse.id := ingredient_id |} ].
Proof.
  intros Hc body.
  pose proof (created_ingredients body d Hc) as Hp.
  apply Permutation_singleton_r in Hp.
  destruct (ingredients_of (created body d) (next_id (recipes d)))
    as [|[k row] [|]]; simplify_eq/=.
  by exists k.
Qed.

(** C2, amended: a recipe created with the one ingredient
    [{name: "Salt", quantity: "1 tsp"}] is returned by the first detail read
    of its id with the title, cooking time and description of the input,
    with exactly one ingredient, of that name and quantity, and with [views]
    equal to 1: the creation answers [views = 0] and the read counts
    itself. *)
Theorem create_then_get_round_trip d title cooking_time description d1 new :
  consistent d →
  let body :=
    RecipeCreate.mk title cooking_time description
      [IngredientCreate.mk "Salt" "1 tsp"] in
  post_recipe body d = (d1, inr new) →
  RecipeDetailResponse.views new = 0 ∧
  ∃ d2 detail ingredient_id,
    get_recipe (RecipeDetailResponse.id new) d1 = (d2, inr detail) ∧
    RecipeDetailResponse.id detail = RecipeDetailResponse.id new ∧
    RecipeDetailResponse.title detail = title ∧
    RecipeDetailResponse.cooking_time detail = cooking_time ∧
    RecipeDetailResponse.description detail = description ∧
    RecipeDetailResponse.views detail = 1 ∧
    RecipeDetailResponse.ingredients detail =
      [ {| IngredientResponse.name := "Salt";
           IngredientResponse.quantity := "1 tsp";
           IngredientResponse.id := ingredient_id |} ].
Proof.
  intros Hc body Hpost.
  destruct (post_recipe_answered _ _ _ _ Hpost) as (Hv & Hct & Hok).
  rewrite (post_recipe_accepted _ _ Hv Hct Hok) in Hpost.
  pose proof (created_detail body d Hc Hv 0) as Hnew.
  change (set_views 0 (new_recipe body)) with (new_recipe body) in Hnew.
  rewrite Hnew in Hpost. injection Hpost as <- <-. simpl. split; [done|].
  assert (recipes (created body d) !! next_id (recipes d)
          = Some (new_recipe body)) as Hr by apply lookup_insert_eq.
  rewrite (get_recipe_found _ _ _ Hr).
  rewrite (created_detail body d Hc Hv).
  destruct (created_single_ingredient d title cooking_time description
              (IngredientCreate.mk "Salt" "1 tsp") Hc) as [k Hk].
  eexists _, _, k. split; [reflexivity|].
  split_and!; try reflexivity. exact Hk.
Qed.

(** ** The order of the list *)

Lemma by_popularity_then_id_weaken a b :
  by_popularity_then_id a b → by_popularity a b.
Proof. unfold by_popularity_then_id, by_popularity. lia. Qed.

Lemma ordered_recipes d :
  merge_sort by_popularity_then_id (rows (recipes d))
    ≡ₚ map_to_list (recipes d) ∧
  StronglySorted by_popularity
    (merge_sort by_popularity_then_id (rows (recipes d))).
Proof.
  split; [by rewrite merge_sort_Permutation, rows_Permutation|].
  rewrite <- (list_fmap_id (merge_sort _ _)).
  apply (StronglySorted_fmap _ by_popularity_then_id);
    [apply by_popularity_then_id_weaken|].
  apply StronglySorted_merge_sort; apply _.
Qed.

(** C3, amended: for [skip] and [limit] from 0 up to the largest integer
    the driver binds, [2^63 - 1], the list endpoint answers with the stored
    recipes put in order of [views] descending, then [cooking_time]
    ascending, without the first [skip] of them and cut to at most [limit];
    storage is left as it was; when no recipe is left the answer is the
    empty list; every element is the list view (id, title, cooking_time,
    views) of a stored recipe, which does not depend on the description. *)
Theorem list_recipes_sorted_page d skip lim :
  0 ≤ skip ≤ 9223372036854775807 → 0 ≤ lim ≤ 9223372036854775807 →
  ∃ ordered : list (Z * Recipe.t),
    ordered ≡ₚ map_to_list (recipes d) ∧
    StronglySorted by_popularity ordered ∧
    let page := take (Z.to_nat lim) (drop (Z.to_nat skip) ordered) in
    list_recipes (Some skip) (Some lim) d =
      (d, inr (RecipeListResponse_model_validate <$> page)) ∧
    (length page ≤ Z.to_nat lim)%nat ∧
    ((size (recipes d) ≤ Z.to_nat skip)%nat → page = []) ∧
    (∀ x, x ∈ RecipeListResponse_model_validate <$> page →
       ∃ id r, recipes d !! id = Some r ∧
         x = {| RecipeListResponse.id := id;
                RecipeListResponse.title := Recipe.title r;
                RecipeListResponse.cooking_time := Recipe.cooking_time r;
                RecipeListResponse.views := Recipe.views r |}) ∧
    (∀ id r text,
       RecipeListResponse_model_validate
         (id, {| Recipe.title := Recipe.title r;
                 Recipe.cooking_time := Recipe.cooking_time r;
                 Recipe.description := text;
                 Recipe.views := Recipe.views r |}) =
       RecipeListResponse_model_validate (id, r)).
Proof.
  intros Hskip Hlim. destruct (ordered_recipes d) as [Hperm Hsorted].
  exists (merge_sort by_popularity_then_id (rows (recipes d))).
  split; [exact Hperm|]. split; [exact Hsorted|]. cbv zeta. split_and!.
  - rewrite list_recipes_in_range by (apply in_int64_true; simpl; lia).
    simpl. unfold ordered_page, limit, offset.
    by rewrite bool_decide_eq_false_2 by lia.
  - rewrite length_take. lia.
  - intros Hsize. rewrite drop_ge; [apply take_nil|].
    by rewrite Hperm, length_map_to_list.
  - intros x Hx. apply list_elem_of_fmap in Hx as ([id r] & -> & Hin).
    exists id, r. split; [|done].
    apply elem_of_map_to_list. rewrite <- Hperm.
    eapply elem_of_sublist; [exact Hin|].
    etrans; [apply sublist_take|apply sublist_drop].
  - done.
Qed.

(** C4: for an id that is not stored and that the driver cannot bind (one
    outside the signed 64-bit range) the detail read does not answer with
    the 404: the driver's [OverflowError] comes out of the handler, and no
    [HTTPException] is raised although no recipe has the id.  Storage is
    left as it was. *)
Theorem get_recipe_out_of_range d id :
  recipes d !! id = None →
  in_int64 id = false →
  get_recipe id d = (d, inl OverflowError) ∧
  ¬ ∃ d' status_code detail,
      get_recipe id d = (d', inl (HTTPException status_code detail)).
Proof.
  intros Hr Hid. rewrite (get_recipe_overflow _ _ Hr Hid).
  split; [done|]. by intros (d' & c & m & [=]).
Qed.

(** X16: for an id the driver binds (one in the signed 64-bit range) the
    detail read raises [HTTPException] exactly when no recipe has the id;
    the exception is then a 404 whose message holds the id in decimal, and
    storage is left as it was. *)
Theorem get_recipe_not_found d id :
  in_int64 id = true →
  ((∃ d' status_code detail,
      get_recipe id d = (d', inl (HTTPException status_code detail))) ↔
   recipes d !! id = None) ∧
  (recipes d !! id = None →
   get_recipe id d =
     (d, inl (HTTPException 404 ("Рецепт с ID " +:+ pretty id +:+ " не найден")))) ∧
  (∀ e, (get_recipe id d).2 = inl e → e ≠ ValidationError →
        recipes d !! id = None ∧ (get_recipe id d).1 = d).
Proof.
  intros Hid. split_and!.
  - split.
    + intros (d' & c & m & H). destruct (recipes d !! id) as [r|] eqn:Hr; [|done].
      rewrite (get_recipe_found _ _ _ Hr) in H.
      unfold RecipeDetailResponse_model_validate in H.
      by destruct (_ && _) in H.
    + intros Hr. rewrite (get_recipe_missing _ _ Hr Hid). eauto.
  - intros Hr. by apply get_recipe_missing.
  - intros e He Hne. destruct (recipes d !! id) as [r|] eqn:Hr.
    + rewrite (get_recipe_found _ _ _ Hr) in He. simpl in He.
      unfold RecipeDetailResponse_model_validate in He.
      destruct (_ && _) in He; by simplify_eq.
    + by rewrite (get_recipe_missing _ _ Hr Hid).
Qed.

Lemma forallb_false_Exists {A} (f : A → bool) (l : list A) :
  forallb f l = false ↔ ∃ x, x ∈ l ∧ f x = false.
Proof.
  induction l as [|a l IH]; simpl.
  - split; [done|]. intros (x & Hx & _). by apply elem_of_nil in Hx.
  - rewrite andb_false_iff, IH. split.
    + intros [Ha|(x & Hx & Hf)]; [exists a|exists x];
        (split; [apply elem_of_cons; auto|done]).
    + intros (x & [->|Hx]%elem_of_cons & Hf); eauto.
Qed.

(** C5: [create_recipe] inserts the recipe row in the open transaction,
    registers one ingredient row per input ingredient under the generated
    id and commits once.  When the engine refuses one of the ingredient
    INSERTs the request fails and storage is exactly what it was before it:
    no recipe row and no ingredient row remains.  If the recipe row itself
    went in (its cooking time is one the driver binds), the handler raises
    the storage error with that row in the open transaction and the scope
    rolls it back; if not, the driver's error comes out and nothing was
    inserted.  When the recipe row goes in and every INSERT is accepted,
    storage gains the recipe under a key that was free and, per input
    ingredient, one ingredient row that references it. *)
Theorem create_recipe_atomic d body :
  RecipeCreate_valid body = true →
  let new_id := next_id (recipes d) in
  ((∃ row, row ∈ new_ingredients body new_id ∧ storage_accepts row = false) →
     (∃ e, post_recipe body d = (d, inl e)) ∧
     (in_int64 (RecipeCreate.cooking_time body) = true →
        (∃ s, create_recipe body (AsyncSessionLocal d)
                = (s, inl OperationalError) ∧
              recipes (txn s) !! new_id = Some (new_recipe body) ∧
              committed s = d) ∧
        post_recipe body d = (d, inl OperationalError))) ∧
  (in_int64 (RecipeCreate.cooking_time body) = false →
     post_recipe body d = (d, inl OverflowError)) ∧
  (in_int64 (RecipeCreate.cooking_time body) = true →
   (∀ row, row ∈ new_ingredients body new_id → storage_accepts row = true) →
     (post_recipe body d).1 = created body d ∧
     recipes d !! new_id = None ∧
     recipes (created body d) = <[new_id := new_recipe body]> (recipes d) ∧
     (map_to_list (ingredients (created body d))).*2 ≡ₚ
       new_ingredients body new_id ++ (map_to_list (ingredients d)).*2 ∧
     (∀ k i, ingredients d !! k = Some i →
             ingredients (created body d) !! k = Some i) ∧
     (∀ row, row ∈ new_ingredients body new_id →
             Ingredient.recipe_id row = new_id) ∧
     length (new_ingredients body new_id) =
       length (RecipeCreate.ingredients body)).
Proof.
  intros Hv new_id. split_and!.
  - intros Hno%forallb_false_Exists. split.
    + destruct (in_int64 (RecipeCreate.cooking_time body)) eqn:Hct.
      * exists OperationalError. by apply post_recipe_refused.
      * exists OverflowError. by apply post_recipe_overflow.
    + intros Hct. split.
      * destruct (create_recipe_refused body d Hct Hno)
          as (s & Hrun & Hs & Ht).
        eauto.
      * by apply post_recipe_refused.
  - by apply post_recipe_overflow.
  - intros Hct Hall.
    assert (forallb storage_accepts (new_ingredients body new_id) = true) as Hok.
    { apply forallb_forall. intros row Hrow%list_elem_of_In. by apply Hall. }
    split_and!.
    + by rewrite (post_recipe_accepted _ _ Hv Hct Hok).
    + apply next_id_fresh.
    + reflexivity.
    + apply insert_all_values.
    + intros k i. apply insert_all_lookup_old.
    + intros row Hrow. by apply list_elem_of_fmap in Hrow as (i & -> & _).
    + apply length_fmap.
Qed.

Lemma min_length_false lo s :
  min_length lo s = false ↔ (len s < lo)%nat.
Proof. unfold min_length. rewrite bool_decide_eq_false. lia. Qed.

Lemma max_length_false hi s :
  max_length hi s = false ↔ (hi < len s)%nat.
Proof. unfold max_length. rewrite bool_decide_eq_false. lia. Qed.

Lemma gt_false lo n : gt lo n = false ↔ n ≤ lo.
Proof. unfold gt. rewrite bool_decide_eq_false. lia. Qed.

Lemma IngredientCreate_valid_false i :
  IngredientCreate_valid i = false ↔
  too_long_or_empty 255 (IngredientCreate.name i) ∨
  too_long_or_empty 100 (IngredientCreate.quantity i).
Proof.
  unfold IngredientCreate_valid, IngredientBase_fields, too_long_or_empty.
  rewrite !andb_false_iff, !min_length_false, !max_length_false. lia.
Qed.

Lemma RecipeCreate_valid_false body :
  RecipeCreate_valid body = false ↔ rejected_input body.
Proof.
  unfold RecipeCreate_valid, RecipeBase_fields, rejected_input,
    too_long_or_empty.
  rewrite !andb_false_iff, !min_length_false, max_length_false, gt_false.
  rewrite forallb_false_Exists, Exists_exists.
  setoid_rewrite IngredientCreate_valid_false.
  unfold too_long_or_empty. intuition lia.
Qed.

(** C6: a body with an empty or over-long title, a cooking time that is
    not above 0, a description under 10 characters, or an ingredient whose
    name is outside 1..255 or whose quantity is outside 1..100 characters
    (characters, not bytes, are counted) fails validation; the endpoint then answers with the validation error,
    the handler and its session never run, and storage is what it was.
    These are the only bodies validation rejects.  A description of
    length 5 is one of them. *)
Theorem post_recipe_rejects_invalid d body :
  rejected_input body →
  RecipeCreate_valid body = false ∧
  post_recipe body d = (d, inl RequestValidationError) ∧
  (∀ body', RecipeCreate_valid body' = false ↔ rejected_input body') ∧
  (∀ body', len (RecipeCreate.description body') = 5%nat →
            post_recipe body' d = (d, inl RequestValidationError)).
Proof.
  intros Hbad. apply RecipeCreate_valid_false in Hbad. split_and!.
  - done.
  - by apply post_recipe_invalid.
  - apply RecipeCreate_valid_false.
  - intros body' H5. apply post_recipe_invalid, RecipeCreate_valid_false.
    right. right. left. lia.
Qed.

(** ** The scope of [get_db] *)

Lemma flush_committed s : committed (flush s).1 = committed s.
Proof. unfold flush. by destruct (flush_work _ _) as [[? ?] ?]. Qed.

(** C7: whatever runs inside the scope of [get_db], from whatever session
    state: when it returns and the flush of the commit is accepted, the
    durable state becomes the state of the transaction with all pending
    work applied and the value is passed on; when it raises (or the commit
    does), the durable state stays as it was at the error, nothing of the
    transaction or of the unit of work is kept, and the same exception
    comes out; on every path the session ends closed. *)
Theorem get_db_scope {A} (scope : M A) session s1 r1 :
  scope session = (s1, r1) →
  ∃ s r,
    get_db scope session = (s, r) ∧
    closed s = true ∧ pending s = [] ∧ txn s = committed s ∧
    match r1 with
    | inr a =>
        match flush s1 with
        | (s2, inr _) => r = inr a ∧ committed s = txn s2
        | (_, inl e) => r = inl e ∧ committed s = committed s1
        end
    | inl e => r = inl e ∧ committed s = committed s1
    end.
Proof.
  intros Hrun. unfold get_db. rewrite bind_unfold, Hrun.
  destruct r1 as [e|a].
  - eexists _, _. split; [reflexivity|]. by destruct (is_Exception e).
  - rewrite bind_unfold. unfold commit.
    pose proof (flush_committed s1) as Hc.
    destruct (flush s1) as [s2 [e|[]]]; simpl in Hc.
    + eexists _, _. split; [reflexivity|].
      by destruct (is_Exception e).
    + eexists _, _. split; [reflexivity|]. done.
Qed.

(** ** The view counter *)

Lemma views_nonneg_viewed id r d :
  recipes d !! id = Some r → views_nonneg d → views_nonneg (viewed id r d).
Proof.
  intros Hr Hn. apply map_Forall_insert_2; [|done].
  specialize (Hn _ _ Hr). simpl in *. lia.
Qed.

Lemma views_nonneg_created body d :
  views_nonneg d → views_nonneg (created body d).
Proof. intros Hn. by apply map_Forall_insert_2. Qed.

(** C8: every call of the API keeps all stored [views] at 0 or above; a
    recipe stored before the call is stored after it, with the same
    [views], or with [views] one higher when the call is the detail read of
    that recipe; a recipe stored only after the call came from a creation
    and has [views = 0]; the detail read of a stored recipe does raise its
    [views] by 1. *)
Theorem views_only_grow c d :
  views_nonneg d →
  views_nonneg (after c d) ∧
  (∀ id r, recipes d !! id = Some r →
     ∃ r', recipes (after c d) !! id = Some r' ∧
           (Recipe.views r' = Recipe.views r ∨
            (c = GetRecipe id ∧ Recipe.views r' = Recipe.views r + 1))) ∧
  (∀ id r', recipes d !! id = None → recipes (after c d) !! id = Some r' →
     Recipe.views r' = 0 ∧ ∃ body, c = PostRecipe body) ∧
  (∀ id r, c = GetRecipe id → recipes d !! id = Some r →
     ∃ r', recipes (after c d) !! id = Some r' ∧
           Recipe.views r' = Recipe.views r + 1).
Proof.
  intros Hn.
  destruct (after_cases c d)
    as [Heq|[(id & r & -> & Hr & ->)|(body & -> & Hv & ->)]].
  - rewrite Heq. split_and!; [done|by eauto|congruence|].
    intros id r -> Hr. exfalso. unfold after in Heq.
    rewrite (get_recipe_found _ _ _ Hr) in Heq. simpl in Heq.
    assert (recipes (viewed id r d) !! id = recipes d !! id) as E
      by by rewrite Heq.
    simpl in E. rewrite lookup_insert_eq, Hr in E.
    injection E as E. destruct r. simpl in E. injection E. lia.
  - split_and!.
    + by apply views_nonneg_viewed.
    + intros j rj Hj. simpl. rewrite lookup_insert.
      case_decide as Hij; [subst j|by eauto].
      rewrite Hr in Hj. injection Hj as <-. eexists. split; [done|]. by right.
    + intros j rj Hj. simpl. rewrite lookup_insert.
      case_decide; [congruence|congruence].
    + intros j rj [= <-] Hj. rewrite Hr in Hj. injection Hj as <-.
      simpl. rewrite lookup_insert_eq. by eexists.
  - split_and!.
    + by apply views_nonneg_created.
    + intros j rj Hj. simpl. rewrite lookup_insert_ne; [by eauto|].
      intros E. by rewrite <- E, next_id_fresh in Hj.
    + intros j rj Hj. simpl. rewrite lookup_insert.
      case_decide; [|congruence]. intros [= <-]. eauto.
    + intros j rj [=].
Qed.

Lemma reachable_views_nonneg d : reachable d → views_nonneg d.
Proof.
  induction 1 as [|c d _ IH]; [apply map_Forall_empty|].
  destruct (after_cases c d) as [->|[(id & r & _ & Hr & ->)|(b & _ & _ & ->)]];
    [done|by apply views_nonneg_viewed|by apply views_nonneg_created].
Qed.

(** C9: the detail read of a stored recipe leaves its title, cooking time
    and description as they were and raises its [views] by 1; every other
    recipe, the whole ingredient table, and so the ingredients of every
    recipe, are what they were. *)
Theorem get_recipe_frame d id r :
  recipes d !! id = Some r →
  let d' := (get_recipe id d).1 in
  (∃ r', recipes d' !! id = Some r' ∧
         Recipe.title r' = Recipe.title r ∧
         Recipe.cooking_time r' = Recipe.cooking_time r ∧
         Recipe.description r' = Recipe.description r ∧
         Recipe.views r' = Recipe.views r + 1) ∧
  (∀ j, j ≠ id → recipes d' !! j = recipes d !! j) ∧
  dom (recipes d') = dom (recipes d) ∧
  ingredients d' = ingredients d ∧
  (∀ j, ingredients_of d' j = ingredients_of d j).
Proof.
  intros Hr d'. subst d'. rewrite (get_recipe_found _ _ _ Hr). simpl.
  split_and!.
  - rewrite lookup_insert_eq. by eexists.
  - intros j Hj. by rewrite lookup_insert_ne.
  - apply dom_insert_lookup_L. by eexists.
  - done.
  - done.
Qed.

(** C10: without pagination arguments the list endpoint is the one with
    [skip = 0] and [limit = 100]; its answer has as many recipes as are
    stored, and 100 when more are stored. *)
Theorem list_recipes_default_page d :
  list_recipes None None d = list_recipes (Some 0) (Some 100) d ∧
  ∃ page,
    list_recipes None None d = (d, inr page) ∧
    (length page ≤ 100)%nat ∧
    length page = (100 `min` size (recipes d))%nat.
Proof.
  split; [done|]. rewrite (list_recipes_in_range None None d eq_refl eq_refl).
  eexists. split; [done|].
  rewrite length_fmap. unfold ordered_page, limit, offset.
  change (default 100 None) with 100. change (default 0 None) with 0.
  rewrite bool_decide_eq_false_2 by lia. rewrite length_take, length_drop.
  destruct (ordered_recipes d) as [Hp _]. apply Permutation_length in Hp.
  rewrite Hp, length_map_to_list.
  change (Z.to_nat 100) with 100%nat. change (Z.to_nat 0) with 0%nat. lia.
Qed.

(** * Further properties of the endpoints *)

(** ** Listing *)

Lemma StronglySorted_sublist {A} (R : relation A) (l1 l2 : list A) :
  l1 `sublist_of` l2 → StronglySorted R l2 → StronglySorted R l1.
Proof.
  induction 1 as [|x l1 l2 Hs IH|x l1 l2 Hs IH]; intros Hl2.
  - constructor.
  - apply StronglySorted_inv in Hl2 as [Hl2 Hx]. constructor; [by apply IH|].
    rewrite Forall_forall in Hx |- *. intros y Hy. apply Hx.
    by eapply elem_of_sublist.
  - apply StronglySorted_inv in Hl2 as [Hl2 _]. by apply IH.
Qed.

Lemma limit_sublist {A} (n : Z) (l : list A) : limit n l `sublist_of` l.
Proof. unfold limit. case_bool_decide; [done|apply sublist_take]. Qed.

Lemma offset_sublist {A} (n : Z) (l : list A) : offset n l `sublist_of` l.
Proof. apply sublist_drop. Qed.

Lemma ordered_page_sublist skip lim d :
  ordered_page skip lim d
    `sublist_of` merge_sort by_popularity_then_id (rows (recipes d)).
Proof.
  unfold ordered_page.
  etrans; [apply limit_sublist|apply offset_sublist].
Qed.

Lemma elem_of_ordered_page skip lim d id r :
  (id, r) ∈ ordered_page skip lim d → recipes d !! id = Some r.
Proof.
  intros Hin. apply elem_of_map_to_list.
  destruct (ordered_recipes d) as [<- _].
  eapply elem_of_sublist; [exact Hin|apply ordered_page_sublist].
Qed.

Lemma ordered_page_keys_NoDup skip lim d :
  NoDup (ordered_page skip lim d).*1.
Proof.
  eapply sublist_NoDup;
    [|apply fmap_sublist, ordered_page_sublist].
  destruct (ordered_recipes d) as [Hp _]. rewrite Hp.
  apply NoDup_fst_map_to_list.
Qed.

Lemma list_view_ids (l : list (Z * Recipe.t)) :
  RecipeListResponse.id <$> (RecipeListResponse_model_validate <$> l) = l.*1.
Proof. rewrite <- list_fmap_compose. by apply list_fmap_ext. Qed.

(** X1: the list endpoint never changes storage.  When [skip] and [limit],
    given or defaulted, negative or not, are integers the driver binds, it
    answers with a page, and asking again gives the same page; every
    element of the page is the list view of a stored recipe, and no id
    occurs twice.  When one of them is outside the signed 64-bit range the
    driver's [OverflowError] comes out instead. *)
Theorem list_recipes_read_only d skip lim :
  (list_recipes skip lim d).1 = d ∧
  (in_int64 (default 0 skip) = true → in_int64 (default 100 lim) = true →
   ∃ page,
     list_recipes skip lim d = (d, inr page) ∧
     list_recipes skip lim (list_recipes skip lim d).1 = (d, inr page) ∧
     (∀ x, x ∈ page →
        ∃ id r, recipes d !! id = Some r ∧
                x = RecipeListResponse_model_validate (id, r)) ∧
     NoDup (RecipeListResponse.id <$> page)) ∧
  (in_int64 (default 0 skip) && in_int64 (default 100 lim) = false →
   list_recipes skip lim d = (d, inl OverflowError)).
Proof.
  split_and!.
  - by rewrite list_recipes_run.
  - intros Hs Hl. eexists. rewrite (list_recipes_in_range _ _ _ Hs Hl).
    split; [reflexivity|]. split_and!.
    + simpl. by rewrite (list_recipes_in_range _ _ _ Hs Hl).
    + intros x Hx. apply list_elem_of_fmap in Hx as ([id r] & -> & Hin).
      exists id, r. split; [|done]. by eapply elem_of_ordered_page.
    + rewrite list_view_ids. apply ordered_page_keys_NoDup.
  - intros Hb. by rewrite list_recipes_run, Hb.
Qed.

(** X2: in every page the list endpoint answers with, a recipe with more
    views comes before one with fewer, and of two with the same views the
    one with the shorter or equal cooking time comes first: each element is
    in that relation to all that follow it. *)
Theorem list_recipes_answer_sorted d skip lim d' page :
  list_recipes skip lim d = (d', inr page) →
  StronglySorted listed_before page.
Proof.
  intros [_ ->]%list_recipes_answered.
  apply (StronglySorted_fmap _ by_popularity); [by intros [? ?] [? ?]|].
  eapply StronglySorted_sublist; [apply ordered_page_sublist|].
  apply ordered_recipes.
Qed.

(** X3: consecutive pages join up: for [skip], [a], [b] at or above 0, with
    [skip + a] and [a + b] still integers the driver binds, the page of [a]
    recipes from [skip], followed by the page of [b] recipes from
    [skip + a], is the page of [a + b] recipes from [skip]. *)
Theorem list_recipes_pages_join d skip a b :
  0 ≤ skip → 0 ≤ a → 0 ≤ b →
  skip + a ≤ 9223372036854775807 → a + b ≤ 9223372036854775807 →
  ∃ first second,
    list_recipes (Some skip) (Some a) d = (d, inr first) ∧
    list_recipes (Some (skip + a)) (Some b) d = (d, inr second) ∧
    list_recipes (Some skip) (Some (a + b)) d = (d, inr (first ++ second)).
Proof.
  intros Hskip Ha Hb Hsa Hab. eexists _, _.
  rewrite !list_recipes_in_range by (apply in_int64_true; simpl; lia).
  split; [reflexivity|]. split; [reflexivity|]. f_equal. f_equal.
  rewrite <- fmap_app. f_equal. simpl.
  unfold ordered_page, limit, offset.
  rewrite !bool_decide_eq_false_2 by lia.
  rewrite !Z2Nat.inj_add by lia.
  rewrite <- drop_drop. by rewrite take_take_drop.
Qed.

Lemma full_listing d lim :
  Z.of_nat (size (recipes d)) ≤ lim →
  ordered_page (default 0 None) (default 100 (Some lim)) d
  ≡ₚ map_to_list (recipes d).
Proof.
  intros Hlim. destruct (ordered_recipes d) as [Hp _].
  change (default 0 None) with 0. change (default 100 (Some lim)) with lim.
  unfold ordered_page, limit, offset.
  rewrite bool_decide_eq_false_2 by lia.
  change (Z.to_nat 0) with 0%nat. rewrite drop_0, take_ge; [done|].
  apply Permutation_length in Hp. rewrite Hp, length_map_to_list. lia.
Qed.

(** X4: a listing from the start whose limit is at least the number of
    stored recipes, and an integer the driver binds, holds every stored
    recipe exactly once: it is a rearrangement of the list views of the
    rows of the table. *)
Theorem list_recipes_covers_all d lim :
  Z.of_nat (size (recipes d)) ≤ lim →
  lim ≤ 9223372036854775807 →
  ∃ page,
    list_recipes None (Some lim) d = (d, inr page) ∧
    page ≡ₚ RecipeListResponse_model_validate <$> map_to_list (recipes d) ∧
    length page = size (recipes d) ∧
    NoDup (RecipeListResponse.id <$> page) ∧
    (∀ id r, recipes d !! id = Some r →
             RecipeListResponse_model_validate (id, r) ∈ page).
Proof.
  intros Hlim Hmax. eexists.
  rewrite list_recipes_in_range;
    [|done|apply in_int64_true; simpl; lia].
  split; [reflexivity|].
  pose proof (full_listing d lim Hlim) as Hall.
  split_and!.
  - by rewrite Hall.
  - by rewrite length_fmap, Hall, length_map_to_list.
  - rewrite list_view_ids. apply ordered_page_keys_NoDup.
  - intros id r Hr. rewrite Hall.
    apply list_elem_of_fmap. exists (id, r). split; [done|].
    by apply elem_of_map_to_list.
Qed.

(** ** Creation *)

Lemma insert_all_size {A} (l : list A) (m : gmap Z A) :
  size (insert_all l m) = (size m + length l)%nat.
Proof.
  revert m. induction l as [|row l IH]; intros m; simpl; [lia|].
  rewrite IH, map_size_insert_None by apply next_id_fresh. lia.
Qed.

Lemma insert_all_key {A} (l : list A) (m : gmap Z A) k :
  is_Some (insert_all l m !! k) → is_Some (m !! k) ∨ 0 < k.
Proof.
  revert m. induction l as [|row l IH]; intros m H; simpl in *; [by left|].
  apply IH in H as [H|H]; [|by right].
  rewrite lookup_insert in H. case_decide; [|by left].
  right. subst k. apply next_id_positive.
Qed.

Lemma ingredients_of_keys_NoDup d rid : NoDup (ingredients_of d rid).*1.
Proof.
  eapply sublist_NoDup; [|apply fmap_sublist, sublist_filter].
  rewrite rows_Permutation. apply NoDup_fst_map_to_list.
Qed.

Lemma detail_ingredient_ids (l : list (Z * Ingredient.t)) :
  IngredientResponse.id <$> (IngredientResponse_of <$> l) = l.*1.
Proof. rewrite <- list_fmap_compose. by apply list_fmap_ext. Qed.

Lemma model_validate_inr id r l answer :
  RecipeDetailResponse_model_validate id r l = inr answer →
  answer =
    {| RecipeDetailResponse.title := Recipe.title r;
       RecipeDetailResponse.cooking_time := Recipe.cooking_time r;
       RecipeDetailResponse.description := Recipe.description r;
       RecipeDetailResponse.id := id;
       RecipeDetailResponse.views := Recipe.views r;
       RecipeDetailResponse.ingredients := IngredientResponse_of <$> l |}.
Proof.
  unfold RecipeDetailResponse_model_validate.
  destruct (_ && _); by intros [= <-].
Qed.

Lemma model_validate_inl id r l e :
  RecipeDetailResponse_model_validate id r l = inl e → e = ValidationError.
Proof.
  unfold RecipeDetailResponse_model_validate.
  destruct (_ && _); by intros [= <-].
Qed.

(** X5: a creation that answers stores exactly one more recipe and one more
    ingredient row per input ingredient.  The id it answers with is above 0
    and above every id stored before, the recipe stored under it is the
    input with [views = 0], and every recipe and ingredient stored before
    is still stored, unchanged. *)
Theorem post_recipe_adds_one d body d' answer :
  post_recipe body d = (d', inr answer) →
  let new_id := RecipeDetailResponse.id answer in
  0 < new_id ∧
  (∀ j, is_Some (recipes d !! j) → j < new_id) ∧
  recipes d' !! new_id =
    Some {| Recipe.title := RecipeCreate.title body;
            Recipe.cooking_time := RecipeCreate.cooking_time body;
            Recipe.description := RecipeCreate.description body;
            Recipe.views := 0 |} ∧
  (∀ j, j ≠ new_id → recipes d' !! j = recipes d !! j) ∧
  (∀ k i, ingredients d !! k = Some i → ingredients d' !! k = Some i) ∧
  size (recipes d') = S (size (recipes d)) ∧
  size (ingredients d') =
    (size (ingredients d) + length (RecipeCreate.ingredients body))%nat.
Proof.
  intros Hpost. destruct (post_recipe_answered _ _ _ _ Hpost) as (Hv & Hct & Hok).
  rewrite (post_recipe_accepted _ _ Hv Hct Hok) in Hpost.
  injection Hpost as <- Hanswer. apply model_validate_inr in Hanswer as ->.
  simpl. split_and!.
  - apply next_id_positive.
  - apply next_id_above.
  - apply lookup_insert_eq.
  - intros j Hj. by rewrite lookup_insert_ne.
  - intros k i. apply insert_all_lookup_old.
  - apply map_size_insert_None, next_id_fresh.
  - rewrite insert_all_size. unfold new_ingredients. by rewrite length_fmap.
Qed.

(** X6: on storage filled through the API, the answer of a creation is the
    detail view of the input: its title, cooking time and description,
    [views = 0], and as ingredients the names and quantities of the input,
    each as often as the input has it, under ids that differ from each
    other. *)
Theorem post_recipe_answer d body d' answer :
  consistent d →
  post_recipe body d = (d', inr answer) →
  RecipeDetailResponse.title answer = RecipeCreate.title body ∧
  RecipeDetailResponse.cooking_time answer = RecipeCreate.cooking_time body ∧
  RecipeDetailResponse.description answer = RecipeCreate.description body ∧
  RecipeDetailResponse.views answer = 0 ∧
  (λ i, (IngredientResponse.name i, IngredientResponse.quantity i))
    <$> RecipeDetailResponse.ingredients answer
  ≡ₚ (λ i, (IngredientCreate.name i, IngredientCreate.quantity i))
       <$> RecipeCreate.ingredients body ∧
  NoDup (IngredientResponse.id <$> RecipeDetailResponse.ingredients answer).
Proof.
  intros Hc Hpost. destruct (post_recipe_answered _ _ _ _ Hpost) as (Hv & Hct & Hok).
  rewrite (post_recipe_accepted _ _ Hv Hct Hok) in Hpost.
  injection Hpost as <- Hanswer. apply model_validate_inr in Hanswer as ->.
  simpl. split_and!; try done.
  - rewrite <- list_fmap_compose.
    transitivity ((λ i, (Ingredient.name i, Ingredient.quantity i)) <$>
                  (ingredients_of (created body d) (next_id (recipes d))).*2).
    { by rewrite <- list_fmap_compose. }
    rewrite (created_ingredients body d Hc). unfold new_ingredients.
    by rewrite <- list_fmap_compose.
  - rewrite detail_ingredient_ids. apply ingredients_of_keys_NoDup.
Qed.

(** X7: a valid body without ingredients, whose cooking time is an integer
    the driver binds, is created whatever the engine would say to an
    ingredient INSERT, since none is issued: the ingredient table stays as
    it is and the answer has no ingredients. *)
Theorem post_recipe_without_ingredients d body :
  consistent d →
  RecipeCreate_valid body = true →
  in_int64 (RecipeCreate.cooking_time body) = true →
  RecipeCreate.ingredients body = [] →
  ∃ d' answer,
    post_recipe body d = (d', inr answer) ∧
    ingredients d' = ingredients d ∧
    RecipeDetailResponse.ingredients answer = [] ∧
    RecipeDetailResponse.views answer = 0.
Proof.
  intros Hc Hv Hct Hnone.
  assert (new_ingredients body (next_id (recipes d)) = []) as Hnew
    by (unfold new_ingredients; by rewrite Hnone).
  rewrite post_recipe_accepted; [|done|done|by rewrite Hnew].
  pose proof (created_detail body d Hc Hv 0) as Hd.
  change (set_views 0 (new_recipe body)) with (new_recipe body) in Hd.
  rewrite Hd. eexists _, _. split; [reflexivity|]. simpl. split_and!.
  - by rewrite Hnew.
  - pose proof (created_ingredients body d Hc) as Hp. rewrite Hnew in Hp.
    apply Permutation_nil_r, fmap_nil_inv in Hp. by rewrite Hp.
  - done.
Qed.

(** X14: the detail read that follows a creation answers with the answer
    of the creation, ingredient ids included, except that [views] is 1. *)
Theorem post_then_get d body d1 new :
  consistent d →
  post_recipe body d = (d1, inr new) →
  ∃ d2,
    get_recipe (RecipeDetailResponse.id new) d1 =
      (d2, inr {| RecipeDetailResponse.title := RecipeDetailResponse.title new;
                  RecipeDetailResponse.cooking_time :=
                    RecipeDetailResponse.cooking_time new;
                  RecipeDetailResponse.description :=
                    RecipeDetailResponse.description new;
                  RecipeDetailResponse.id := RecipeDetailResponse.id new;
                  RecipeDetailResponse.views := 1;
                  RecipeDetailResponse.ingredients :=
                    RecipeDetailResponse.ingredients new |}) ∧
    ingredients d2 = ingredients d1.
Proof.
  intros Hc Hpost. destruct (post_recipe_answered _ _ _ _ Hpost) as (Hv & Hct & Hok).
  rewrite (post_recipe_accepted _ _ Hv Hct Hok) in Hpost.
  injection Hpost as <- Hnew. apply model_validate_inr in Hnew as ->. simpl.
  assert (recipes (created body d) !! next_id (recipes d)
          = Some (new_recipe body)) as Hr by apply lookup_insert_eq.
  rewrite (get_recipe_found _ _ _ Hr), (created_detail body d Hc Hv).
  by eexists.
Qed.

(** X15: after a creation a listing from the start with a limit above the
    number of recipes stored before, and an integer the driver binds, holds
    the new recipe, with [views = 0], and every recipe stored before, as it
    was listed before. *)
Theorem post_then_list d body d1 new lim :
  post_recipe body d = (d1, inr new) →
  Z.of_nat (size (recipes d)) < lim →
  lim ≤ 9223372036854775807 →
  ∃ page,
    list_recipes None (Some lim) d1 = (d1, inr page) ∧
    length page = S (size (recipes d)) ∧
    {| RecipeListResponse.id := RecipeDetailResponse.id new;
       RecipeListResponse.title := RecipeCreate.title body;
       RecipeListResponse.cooking_time := RecipeCreate.cooking_time body;
       RecipeListResponse.views := 0 |} ∈ page ∧
    (∀ id r, recipes d !! id = Some r →
             RecipeListResponse_model_validate (id, r) ∈ page).
Proof.
  intros Hpost Hlim Hmax.
  destruct (post_recipe_answered _ _ _ _ Hpost) as (Hv & Hct & Hok).
  rewrite (post_recipe_accepted _ _ Hv Hct Hok) in Hpost.
  injection Hpost as <- Hnew. apply model_validate_inr in Hnew as ->. simpl.
  assert (size (recipes (created body d)) = S (size (recipes d))) as Hsize
    by apply map_size_insert_None, next_id_fresh.
  eexists.
  rewrite list_recipes_in_range; [|done|apply in_int64_true; simpl; lia].
  split; [reflexivity|].
  assert (ordered_page (default 0 None) (default 100 (Some lim))
            (created body d) ≡ₚ map_to_list (recipes (created body d)))
    as Hall by (apply full_listing; lia).
  split_and!.
  - by rewrite length_fmap, Hall, length_map_to_list.
  - apply list_elem_of_fmap. exists (next_id (recipes d), new_recipe body).
    split; [done|]. rewrite Hall.
    apply elem_of_map_to_list. apply lookup_insert_eq.
  - intros id r Hr. apply list_elem_of_fmap. exists (id, r). split; [done|].
    rewrite Hall. apply elem_of_map_to_list. simpl. rewrite lookup_insert_ne; [done|].
    intros E. by rewrite <- E, next_id_fresh in Hr.
Qed.

(** ** Detail reads *)

(** X8: the handler commits the new counter before it builds the answer.
    For a stored recipe whose columns break a constraint of the response
    contract, the read is counted and stored, and the request then fails
    with the validation error of the response. *)
Theorem get_recipe_counts_before_validating d id r :
  recipes d !! id = Some r →
  RecipeBase_fields (Recipe.title r) (Recipe.cooking_time r)
    (Recipe.description r) = false →
  get_recipe id d = (viewed id r d, inl ValidationError) ∧
  ∃ r', recipes (get_recipe id d).1 !! id = Some r' ∧
        Recipe.views r' = Recipe.views r + 1.
Proof.
  intros Hr Hbad. rewrite (get_recipe_found _ _ _ Hr).
  unfold RecipeDetailResponse_model_validate. simpl. rewrite Hbad. simpl.
  split; [done|]. rewrite lookup_insert_eq. by eexists.
Qed.

Lemma viewed_or_not id d :
  (recipes d !! id = None ∧ (get_recipe id d).1 = d) ∨
  (∃ r, recipes d !! id = Some r ∧ (get_recipe id d).1 = viewed id r d).
Proof.
  destruct (recipes d !! id) as [r|] eqn:Hr.
  - right. exists r. by rewrite (get_recipe_found _ _ _ Hr).
  - left. by rewrite (get_recipe_absent _ _ Hr).
Qed.

(** X9: detail reads commute: reading recipe [a] and then [b] leaves the
    same storage as reading [b] and then [a], whether or not the ids are
    stored or equal. *)
Theorem get_recipe_commute d a b :
  (get_recipe b (get_recipe a d).1).1 = (get_recipe a (get_recipe b d).1).1.
Proof.
  destruct (decide (a = b)) as [->|Hab]; [done|].
  destruct (viewed_or_not a d) as [[Ha Ea]|(ra & Ha & Ea)];
    destruct (viewed_or_not b d) as [[Hb Eb]|(rb & Hb & Eb)];
    rewrite Ea, Eb.
  - by rewrite Ea.
  - assert (recipes (viewed b rb d) !! a = None) as Ha'
      by (simpl; by rewrite lookup_insert_ne).
    by rewrite (get_recipe_absent _ _ Ha').
  - assert (recipes (viewed a ra d) !! b = None) as Hb'
      by (simpl; by rewrite lookup_insert_ne).
    by rewrite (get_recipe_absent _ _ Hb').
  - assert (recipes (viewed a ra d) !! b = Some rb) as Hb'
      by (simpl; by rewrite lookup_insert_ne).
    assert (recipes (viewed b rb d) !! a = Some ra) as Ha'
      by (simpl; by rewrite lookup_insert_ne).
    rewrite (get_recipe_found _ _ _ Hb'), (get_recipe_found _ _ _ Ha').
    unfold viewed. simpl. f_equal. by apply insert_insert_ne.
Qed.

(** X10: the ingredients in the answer of a detail read are the rows of the
    ingredient table that reference the recipe, no others, each once: an
    entry with id [k], name [n] and quantity [q] is in the answer exactly
    when row [k] of the table holds [n], [q] and the id of the recipe. *)
Theorem get_recipe_own_ingredients d id d' answer :
  get_recipe id d = (d', inr answer) →
  (∀ k n q,
     {| IngredientResponse.name := n; IngredientResponse.quantity := q;
        IngredientResponse.id := k |} ∈ RecipeDetailResponse.ingredients answer
     ↔ ingredients d !! k =
         Some {| Ingredient.name := n; Ingredient.quantity := q;
                 Ingredient.recipe_id := id |}) ∧
  NoDup (IngredientResponse.id <$> RecipeDetailResponse.ingredients answer).
Proof.
  intros Hget. destruct (recipes d !! id) as [r|] eqn:Hr;
    [|by rewrite (get_recipe_absent _ _ Hr) in Hget].
  rewrite (get_recipe_found _ _ _ Hr) in Hget. injection Hget as _ Hanswer.
  apply model_validate_inr in Hanswer as ->. simpl. split.
  - intros k n q. rewrite list_elem_of_fmap. unfold ingredients_of. split.
    + intros ([k' [n' q' rid]] & [= -> -> ->] & Hin).
      apply list_elem_of_filter in Hin as [Hrid Hin]. simpl in Hrid.
      apply elem_of_rows in Hin. by rewrite <- Hrid.
    + intros Hk. exists (k, Ingredient.mk n q id). split; [reflexivity|].
      apply list_elem_of_filter. split; [done|]. by apply elem_of_rows.
  - rewrite detail_ingredient_ids. apply ingredients_of_keys_NoDup.
Qed.

(** ** Failures and reachable storage *)


Lemma keys_positive_after c d : keys_positive d → keys_positive (after c d).
Proof.
  intros [Hr Hi].
  destruct (after_cases c d) as [->|[(id & r & _ & Hid & ->)|(b & _ & _ & ->)]];
    [done| |]; split; simpl.
  - intros j. rewrite lookup_insert. case_decide; [subst j|by auto].
    intros _. apply Hr. by eexists.
  - done.
  - intros j. rewrite lookup_insert. case_decide; [subst j|by auto].
    intros _. apply next_id_positive.
  - intros k Hk. apply insert_all_key in Hk as [Hk|Hk]; auto.
Qed.

(** X12: whatever sequence of calls led from the empty service to the
    stored state, with whatever verdicts of the engine: every row meets the
    constraints of the contracts, every ingredient references a stored
    recipe, every counter is at 0 or above, every id is above 0, and the
    detail read of every stored recipe answers with its detail view. *)
Theorem reachable_invariants d :
  reachable d →
  consistent d ∧ views_nonneg d ∧ keys_positive d ∧
  (∀ id r, recipes d !! id = Some r →
     ∃ d' answer, get_recipe id d = (d', inr answer) ∧
                  RecipeDetailResponse.id answer = id ∧
                  RecipeDetailResponse.views answer = Recipe.views r + 1).
Proof.
  intros Hd. assert (consistent d) as Hc by by apply reachable_consistent.
  split_and!; [done|by apply reachable_views_nonneg| |].
  - clear Hc. induction Hd as [|c d _ IH]; [|by apply keys_positive_after].
    split; intros k [x Hx]; simpl in Hx; by rewrite lookup_empty in Hx.
  - intros id r Hr. rewrite (get_recipe_found _ _ _ Hr).
    rewrite (detail_of_stored _ _ _ _ Hc Hr). by eexists _, _.
Qed.

Lemma length_append (s t : string) :
  String.length (s +:+ t) = (String.length s + String.length t)%nat.
Proof. induction s as [|c s IH]; simpl; [done|by rewrite IH]. Qed.

Lemma append_cancel_r (s1 s2 t : string) : s1 +:+ t = s2 +:+ t → s1 = s2.
Proof.
  revert s2. induction s1 as [|c s1 IH]; intros [|c2 s2] H; simpl in *.
  - done.
  - apply (f_equal String.length) in H.
    rewrite !length_append in H. simpl in H. lia.
  - apply (f_equal String.length) in H.
    rewrite !length_append in H. simpl in H. lia.
  - injection H as -> H. f_equal. by apply IH.
Qed.

(** X13: the message of the 404 tells the ids apart: two detail reads that
    fail with the same message asked for the same id. *)
Theorem not_found_detail_inj d a b status_a status_b detail :
  (get_recipe a d).2 = inl (HTTPException status_a detail) →
  (get_recipe b d).2 = inl (HTTPException status_b detail) →
  a = b.
Proof.
  intros Ha Hb.
  destruct (recipes d !! a) as [ra|] eqn:Hra.
  { rewrite (get_recipe_found _ _ _ Hra) in Ha. simpl in Ha.
    destruct (RecipeDetailResponse_model_validate _ _ _) eqn:Hm; [|done].
    apply model_validate_inl in Hm. congruence. }
  destruct (recipes d !! b) as [rb|] eqn:Hrb.
  { rewrite (get_recipe_found _ _ _ Hrb) in Hb. simpl in Hb.
    destruct (RecipeDetailResponse_model_validate _ _ _) eqn:Hm; [|done].
    apply model_validate_inl in Hm. congruence. }
  rewrite (get_recipe_absent _ _ Hra) in Ha.
  rewrite (get_recipe_absent _ _ Hrb) in Hb. simpl in *.
  destruct (in_int64 a); [|done]. destruct (in_int64 b); [|done].
  injection Ha as _ <-. injection Hb as _ Hb. unfold not_found_detail in Hb.
  apply String.app_inj, append_cancel_r in Hb.
  by apply (inj pretty) in Hb.
Qed.

End Storage.

(** * The service on concrete data *)

Example post_soup :
  post_recipe accept_all soup empty_database = (soup_stored, inr (soup_detail 0)).
Proof. vm_compute. reflexivity. Qed.

Lemma soup_stored_consistent : consistent soup_stored.
Proof. apply (bool_decide_unpack _). vm_compute. exact I. Defined.

Lemma soup_stored_views_nonneg : views_nonneg soup_stored.
Proof. apply (bool_decide_unpack _). vm_compute. exact I. Defined.

(** Three detail reads of the soup: the fourth answers [views = 4]. *)
Lemma get_recipe_counts_each_read_witness :
  consistent soup_stored ∧
  recipes soup_stored !! 1 = Some soup_row ∧
  get_recipe accept_all 1 soup_stored =
    (viewed 1 soup_row soup_stored, inr (soup_detail 1)) ∧
  ∃ r3 answer,
    recipes (Nat.iter 3 (λ x, (get_recipe accept_all 1 x).1) soup_stored) !! 1
      = Some r3 ∧
    Recipe.views r3 = 3 ∧
    (get_recipe accept_all 1
       (Nat.iter 3 (λ x, (get_recipe accept_all 1 x).1) soup_stored)).2
      = inr answer ∧
    RecipeDetailResponse.views answer = 4.
Proof.
  split; [exact soup_stored_consistent|]. split; [reflexivity|].
  destruct (get_recipe_counts_each_read accept_all soup_stored 1 soup_row
              soup_stored_consistent eq_refl) as (_ & Hget & _ & Hiter).
  split; [exact Hget|].
  destruct (Hiter 3%nat) as (r3 & answer & Hr3 & Hv3 & Hans & Hva).
  exists r3, answer. rewrite Hva, Hv3. simpl. auto.
Defined.

(** The first detail read after the creation of the soup answers
    [views = 1], not 0. *)
Lemma create_then_get_views_is_1 :
  ∃ d1 new d2 detail,
    post_recipe accept_all soup empty_database = (d1, inr new) ∧
    get_recipe accept_all (RecipeDetailResponse.id new) d1 = (d2, inr detail) ∧
    RecipeDetailResponse.views detail = 1 ∧
    RecipeDetailResponse.views detail ≠ 0.
Proof.
  exists soup_stored, (soup_detail 0), (viewed 1 soup_row soup_stored),
    (soup_detail 1).
  split; [vm_compute; reflexivity|]. split; [vm_compute; reflexivity|].
  split; [reflexivity|]. simpl. lia.
Qed.

Lemma create_then_get_round_trip_witness :
  consistent empty_database ∧
  post_recipe accept_all soup empty_database = (soup_stored, inr (soup_detail 0)) ∧
  ∃ d2 detail ingredient_id,
    get_recipe accept_all 1 soup_stored = (d2, inr detail) ∧
    RecipeDetailResponse.title detail = "Soup" ∧
    RecipeDetailResponse.cooking_time detail = 20 ∧
    RecipeDetailResponse.description detail = "Salted water, boiled" ∧
    RecipeDetailResponse.views detail = 1 ∧
    RecipeDetailResponse.ingredients detail =
      [ {| IngredientResponse.name := "Salt";
           IngredientResponse.quantity := "1 tsp";
           IngredientResponse.id := ingredient_id |} ].
Proof.
  assert (consistent empty_database) as Hc
    by (apply (bool_decide_unpack _); vm_compute; exact I).
  assert (post_recipe accept_all soup empty_database
          = (soup_stored, inr (soup_detail 0))) as Hpost
    by (vm_compute; reflexivity).
  split; [exact Hc|]. split; [exact Hpost|].
  destruct (create_then_get_round_trip accept_all empty_database
              "Soup" 20 "Salted water, boiled" soup_stored (soup_detail 0)
              Hc Hpost)
    as (_ & d2 & detail & k & Hget & _ & Ht & Hct & Hd & Hv & Hi).
  exists d2, detail, k. auto 10.
Defined.

Example shelf_listed :
  list_recipes accept_all None None shelf =
    (shelf, inr [ RecipeListResponse.mk 3 "Salad" 10 2;
                  RecipeListResponse.mk 2 "Toast" 5 0;
                  RecipeListResponse.mk 1 "Stew" 90 0 ]).
Proof. vm_compute. reflexivity. Qed.

Lemma list_recipes_sorted_page_witness :
  0 ≤ 1 ≤ 9223372036854775807 ∧
  ∃ ordered : list (Z * Recipe.t),
    ordered ≡ₚ map_to_list (recipes shelf) ∧
    StronglySorted by_popularity ordered ∧
    list_recipes accept_all (Some 1) (Some 1) shelf =
      (shelf, inr (RecipeListResponse_model_validate <$>
                     take 1 (drop 1 ordered))).
Proof.
  assert (0 ≤ 1 ≤ 9223372036854775807) as H01 by lia.
  split; [exact H01|].
  destruct (list_recipes_sorted_page accept_all shelf 1 1 H01 H01)
    as (ordered & Hp & Hs & Hl & _).
  exists ordered. auto.
Defined.

(** A limit of [2^63] is at or above 0, and the listing fails on it. *)
Lemma list_recipes_limit_beyond_int64 :
  0 ≤ 0 ∧ 0 ≤ 9223372036854775808 ∧
  list_recipes accept_all (Some 0) (Some 9223372036854775808) shelf =
    (shelf, inl OverflowError) ∧
  ¬ ∃ page,
      list_recipes accept_all (Some 0) (Some 9223372036854775808) shelf =
        (shelf, inr page).
Proof.
  split; [lia|]. split; [lia|].
  assert (list_recipes accept_all (Some 0) (Some 9223372036854775808) shelf =
            (shelf, inl OverflowError)) as H by (vm_compute; reflexivity).
  split; [exact H|]. rewrite H. by intros [page [=]].
Qed.

Example triplets_listed :
  list_recipes accept_all None None triplets =
    (triplets, inr [ RecipeListResponse.mk 1 "First" 10 0;
                     RecipeListResponse.mk 2 "Second" 10 0;
                     RecipeListResponse.mk 3 "Third" 10 0 ]).
Proof. vm_compute. reflexivity. Qed.

Example post_slow_water :
  RecipeCreate_valid slow_water = true ∧
  post_recipe accept_all slow_water soup_stored =
    (soup_stored, inl OverflowError).
Proof. vm_compute. auto. Qed.

Example shelf_second_page :
  list_recipes accept_all (Some 1) (Some 1) shelf =
    (shelf, inr [ RecipeListResponse.mk 2 "Toast" 5 0 ]).
Proof. vm_compute. reflexivity. Qed.

Example get_recipe_9999 :
  get_recipe accept_all 9999 soup_stored =
    (soup_stored, inl (HTTPException 404 "Рецепт с ID 9999 не найден")).
Proof. vm_compute. reflexivity. Qed.

(** No recipe has the id [2^63], and the detail read of it is no 404. *)
Lemma get_recipe_out_of_range_witness :
  recipes soup_stored !! 9223372036854775808 = None ∧
  in_int64 9223372036854775808 = false ∧
  get_recipe accept_all 9223372036854775808 soup_stored =
    (soup_stored, inl OverflowError).
Proof.
  split; [reflexivity|]. split; [reflexivity|].
  destruct (get_recipe_out_of_range accept_all soup_stored
              9223372036854775808 eq_refl eq_refl) as [H _].
  exact H.
Defined.

Lemma get_recipe_not_found_witness :
  in_int64 9999 = true ∧
  recipes soup_stored !! 9999 = None ∧
  get_recipe accept_all 9999 soup_stored =
    (soup_stored, inl (HTTPException 404 "Рецепт с ID 9999 не найден")).
Proof.
  split; [reflexivity|]. split; [reflexivity|].
  destruct (get_recipe_not_found accept_all soup_stored 9999 eq_refl)
    as (_ & H & _).
  exact (H eq_refl).
Defined.

Lemma create_recipe_atomic_witness :
  RecipeCreate_valid soup = true ∧
  post_recipe refuse_salt soup empty_database =
    (empty_database, inl OperationalError) ∧
  (post_recipe accept_all soup empty_database).1 = soup_stored.
Proof.
  assert (RecipeCreate_valid soup = true) as Hv by reflexivity.
  split; [exact Hv|]. split.
  - destruct (create_recipe_atomic refuse_salt empty_database soup Hv)
      as [Hrefused _].
    destruct Hrefused as [_ Hstorage].
    { exists salt_row. split; [|reflexivity]. apply list_elem_of_here. }
    destruct (Hstorage eq_refl) as [_ Hpost]. exact Hpost.
  - destruct (create_recipe_atomic accept_all empty_database soup Hv)
      as (_ & _ & Haccepted).
    destruct (Haccepted eq_refl) as [Hd _]; [reflexivity|]. rewrite Hd.
    vm_compute. reflexivity.
Defined.

Lemma post_recipe_rejects_invalid_witness :
  rejected_input terse ∧
  post_recipe accept_all terse soup_stored =
    (soup_stored, inl RequestValidationError).
Proof.
  assert (rejected_input terse) as Hbad.
  { right. right. left. vm_compute. lia. }
  split; [exact Hbad|].
  destruct (post_recipe_rejects_invalid accept_all soup_stored terse Hbad)
    as (_ & Hpost & _). exact Hpost.
Defined.

(** Characters are counted, not bytes: the title of the contract's own
    example passes, a six-letter description does not, and a title of 128
    two-byte letters is within the bound of 255. *)
Example cyrillic_lengths :
  len "Борщ" = 4%nat ∧ String.length "Борщ" = 8%nat ∧
  len "Вкусно" = 6%nat ∧
  RecipeCreate_valid
    (RecipeCreate.mk "Борщ" 60 "Традиционный украинский суп..." []) = true ∧
  RecipeCreate_valid (RecipeCreate.mk "Борщ" 60 "Вкусно" []) = false ∧
  RecipeCreate_valid (RecipeCreate.mk "Борщ" 60 "Борщи" []) = false ∧
  max_length 255
    (Nat.iter 128 (λ s, "Б" +:+ s) "") = true.
Proof. vm_compute. auto 10. Qed.

Lemma get_db_scope_witness :
  add (UPDATE_views 1 7) (AsyncSessionLocal soup_stored)
    = (dirty_session, inr ()) ∧
  ∃ s, get_db accept_all (add (UPDATE_views 1 7)) (AsyncSessionLocal soup_stored)
       = (s, inr ()) ∧
       closed s = true ∧
       recipes (committed s) !! 1 = Some (set_views 7 soup_row).
Proof.
  assert (add (UPDATE_views 1 7) (AsyncSessionLocal soup_stored)
          = (dirty_session, inr ())) as Hrun by reflexivity.
  split; [exact Hrun|].
  destruct (get_db_scope accept_all (add (UPDATE_views 1 7))
              (AsyncSessionLocal soup_stored) dirty_session (inr ()) Hrun)
    as (s & r & Hget & Hclosed & _ & _ & Hr & Hcommitted).
  exists s. rewrite Hget, Hr, Hcommitted. split; [reflexivity|].
  split; [exact Hclosed|]. vm_compute. reflexivity.
Defined.

Example get_db_cancelled :
  get_db accept_all (add (UPDATE_views 1 7);; raise CancelledError : M ())
    (AsyncSessionLocal soup_stored) =
  ({| committed := soup_stored; txn := soup_stored; pending := [];
      closed := true |}, inl CancelledError).
Proof. reflexivity. Qed.

Lemma views_only_grow_witness :
  views_nonneg soup_stored ∧
  views_nonneg (after accept_all (GetRecipe 1) soup_stored) ∧
  ∃ r', recipes (after accept_all (GetRecipe 1) soup_stored) !! 1 = Some r' ∧
        Recipe.views r' = 1.
Proof.
  split; [exact soup_stored_views_nonneg|].
  destruct (views_only_grow accept_all (GetRecipe 1) soup_stored
              soup_stored_views_nonneg) as (Hn & _ & _ & Hget).
  split; [exact Hn|].
  destruct (Hget 1 soup_row eq_refl eq_refl) as (r' & Hr' & Hv).
  exists r'. split; [exact Hr'|]. rewrite Hv. reflexivity.
Defined.

Lemma get_recipe_frame_witness :
  recipes soup_stored !! 1 = Some soup_row ∧
  ingredients (get_recipe accept_all 1 soup_stored).1 = ingredients soup_stored ∧
  ∃ r', recipes (get_recipe accept_all 1 soup_stored).1 !! 1 = Some r' ∧
        Recipe.title r' = "Soup" ∧ Recipe.views r' = 1.
Proof.
  split; [reflexivity|].
  destruct (get_recipe_frame accept_all soup_stored 1 soup_row eq_refl)
    as ((r' & Hr' & Ht & _ & _ & Hv) & _ & _ & Hi & _).
  split; [exact Hi|]. exists r'. rewrite Ht, Hv. auto.
Defined.

(** The creation of a borscht in the empty service. *)
Example post_borscht :
  post_recipe accept_all
    (RecipeCreate.mk "Borscht" 60 "Traditional soup with beets and cabbage"
       [IngredientCreate.mk "Beet" "2 pcs"])
    empty_database =
  ({| recipes := {[ 1 := Recipe.mk "Borscht" 60
                           "Traditional soup with beets and cabbage" 0 ]};
      ingredients := {[ 1 := Ingredient.mk "Beet" "2 pcs" 1 ]} |},
   inr {| RecipeDetailResponse.title := "Borscht";
          RecipeDetailResponse.cooking_time := 60;
          RecipeDetailResponse.description :=
            "Traditional soup with beets and cabbage";
          RecipeDetailResponse.id := 1;
          RecipeDetailResponse.views := 0;
          RecipeDetailResponse.ingredients :=
            [ {| IngredientResponse.name := "Beet";
                 IngredientResponse.quantity := "2 pcs";
                 IngredientResponse.id := 1 |} ] |}).
Proof. vm_compute. reflexivity. Qed.

(** 101 recipes stored, 100 listed by default. *)
Lemma list_recipes_default_page_witness :
  let d := Nat.iter 101 (after accept_all (PostRecipe soup)) empty_database in
  size (recipes d) = 101%nat ∧
  ∃ page, (list_recipes accept_all None None d).2 = inr page ∧
          length page = 100%nat.
Proof.
  split; [vm_compute; reflexivity|].
  destruct (list_recipes_default_page accept_all
              (Nat.iter 101 (after accept_all (PostRecipe soup)) empty_database))
    as (_ & page & Hpage & _ & Hlen).
  exists page. rewrite Hpage. split; [reflexivity|]. rewrite Hlen.
  vm_compute. reflexivity.
Defined.

(** ** Further properties on concrete data *)

Lemma list_recipes_answer_sorted_witness :
  list_recipes accept_all None None shelf =
    (shelf, inr [ RecipeListResponse.mk 3 "Salad" 10 2;
                  RecipeListResponse.mk 2 "Toast" 5 0;
                  RecipeListResponse.mk 1 "Stew" 90 0 ]) ∧
  StronglySorted listed_before
    [ RecipeListResponse.mk 3 "Salad" 10 2;
      RecipeListResponse.mk 2 "Toast" 5 0;
      RecipeListResponse.mk 1 "Stew" 90 0 ].
Proof.
  split; [exact shelf_listed|].
  exact (list_recipes_answer_sorted accept_all shelf None None _ _ shelf_listed).
Defined.

Lemma list_recipes_pages_join_witness :
  0 ≤ 0 ∧ 0 ≤ 1 ∧ 0 ≤ 2 ∧
  0 + 1 ≤ 9223372036854775807 ∧ 1 + 2 ≤ 9223372036854775807 ∧
  ∃ first second,
    list_recipes accept_all (Some 0) (Some 1) shelf = (shelf, inr first) ∧
    list_recipes accept_all (Some (0 + 1)) (Some 2) shelf = (shelf, inr second) ∧
    list_recipes accept_all (Some 0) (Some (1 + 2)) shelf
      = (shelf, inr (first ++ second)).
Proof.
  assert (0 ≤ 0) as H0 by lia. assert (0 ≤ 1) as H1 by lia.
  assert (0 ≤ 2) as H2 by lia.
  assert (0 + 1 ≤ 9223372036854775807) as H3 by lia.
  assert (1 + 2 ≤ 9223372036854775807) as H4 by lia.
  split; [exact H0|]. split; [exact H1|]. split; [exact H2|].
  split; [exact H3|]. split; [exact H4|].
  exact (list_recipes_pages_join accept_all shelf 0 1 2 H0 H1 H2 H3 H4).
Defined.

Lemma list_recipes_covers_all_witness :
  Z.of_nat (size (recipes shelf)) ≤ 3 ∧
  3 ≤ 9223372036854775807 ∧
  ∃ page,
    list_recipes accept_all None (Some 3) shelf = (shelf, inr page) ∧
    length page = 3%nat.
Proof.
  assert (Z.of_nat (size (recipes shelf)) ≤ 3) as Hsize by (vm_compute; congruence).
  assert (3 ≤ 9223372036854775807) as Hmax by lia.
  split; [exact Hsize|]. split; [exact Hmax|].
  destruct (list_recipes_covers_all accept_all shelf 3 Hsize Hmax)
    as (page & Hpage & _ & Hlen & _).
  exists page. split; [exact Hpage|]. rewrite Hlen. reflexivity.
Defined.

Lemma post_recipe_adds_one_witness :
  post_recipe accept_all soup empty_database = (soup_stored, inr (soup_detail 0)) ∧
  size (recipes soup_stored) = 1%nat ∧
  size (ingredients soup_stored) = 1%nat.
Proof.
  split; [exact post_soup|].
  destruct (post_recipe_adds_one accept_all empty_database soup soup_stored
              (soup_detail 0) post_soup) as (_ & _ & _ & _ & _ & Hr & Hi).
  rewrite Hr, Hi. split; reflexivity.
Defined.

Lemma post_recipe_answer_witness :
  consistent empty_database ∧
  post_recipe accept_all soup empty_database = (soup_stored, inr (soup_detail 0)) ∧
  RecipeDetailResponse.views (soup_detail 0) = 0 ∧
  NoDup (IngredientResponse.id <$> RecipeDetailResponse.ingredients (soup_detail 0)).
Proof.
  split; [exact consistent_empty|]. split; [exact post_soup|].
  destruct (post_recipe_answer accept_all empty_database soup soup_stored
              (soup_detail 0) consistent_empty post_soup)
    as (_ & _ & _ & Hv & _ & Hn).
  split; [exact Hv|exact Hn].
Defined.

Lemma post_recipe_without_ingredients_witness :
  consistent soup_stored ∧
  RecipeCreate_valid water = true ∧
  in_int64 (RecipeCreate.cooking_time water) = true ∧
  RecipeCreate.ingredients water = [] ∧
  ∃ d' answer,
    post_recipe refuse_all water soup_stored = (d', inr answer) ∧
    ingredients d' = ingredients soup_stored ∧
    RecipeDetailResponse.ingredients answer = [].
Proof.
  split; [exact soup_stored_consistent|]. split; [reflexivity|].
  split; [reflexivity|]. split; [reflexivity|].
  destruct (post_recipe_without_ingredients refuse_all soup_stored water
              soup_stored_consistent eq_refl eq_refl eq_refl)
    as (d' & answer & Hpost & Hi & Hn & _).
  exists d', answer. auto.
Defined.

Lemma get_recipe_counts_before_validating_witness :
  recipes stale !! 1 = Some (Recipe.mk "Tea" 3 "Hot" 0) ∧
  RecipeBase_fields "Tea" 3 "Hot" = false ∧
  get_recipe accept_all 1 stale =
    ({| recipes := {[ 1 := Recipe.mk "Tea" 3 "Hot" 1 ]}; ingredients := ∅ |},
     inl ValidationError).
Proof.
  split; [reflexivity|]. split; [reflexivity|].
  destruct (get_recipe_counts_before_validating accept_all stale 1
              (Recipe.mk "Tea" 3 "Hot" 0) eq_refl eq_refl) as [Hget _].
  rewrite Hget. vm_compute. reflexivity.
Defined.

Example soup_read :
  get_recipe accept_all 1 soup_stored =
    (viewed 1 soup_row soup_stored, inr (soup_detail 1)).
Proof. vm_compute. reflexivity. Qed.

Lemma get_recipe_own_ingredients_witness :
  get_recipe accept_all 1 soup_stored =
    (viewed 1 soup_row soup_stored, inr (soup_detail 1)) ∧
  ingredients soup_stored !! 1 = Some (Ingredient.mk "Salt" "1 tsp" 1).
Proof.
  split; [exact soup_read|].
  destruct (get_recipe_own_ingredients accept_all soup_stored 1 _ _ soup_read)
    as [Hiff _].
  apply (Hiff 1 "Salt" "1 tsp"). apply list_elem_of_here.
Defined.


Lemma reachable_invariants_witness :
  reachable accept_all (after accept_all (PostRecipe soup) empty_database) ∧
  consistent (after accept_all (PostRecipe soup) empty_database) ∧
  keys_positive (after accept_all (PostRecipe soup) empty_database).
Proof.
  assert (reachable accept_all
            (after accept_all (PostRecipe soup) empty_database)) as Hr
    by (apply reachable_call, reachable_start).
  split; [exact Hr|].
  destruct (reachable_invariants accept_all _ Hr) as (Hc & _ & Hk & _).
  split; [exact Hc|exact Hk].
Defined.

Lemma not_found_detail_inj_witness :
  (get_recipe accept_all 9999 soup_stored).2
    = inl (HTTPException 404 "Рецепт с ID 9999 не найден") ∧
  9999 = 9999.
Proof.
  assert ((get_recipe accept_all 9999 soup_stored).2
          = inl (HTTPException 404 "Рецепт с ID 9999 не найден")) as H
    by (vm_compute; reflexivity).
  split; [exact H|].
  exact (not_found_detail_inj accept_all soup_stored 9999 9999 404 404 _ H H).
Defined.

Lemma post_then_get_witness :
  consistent empty_database ∧
  post_recipe accept_all soup empty_database = (soup_stored, inr (soup_detail 0)) ∧
  ∃ d2, get_recipe accept_all 1 soup_stored = (d2, inr (soup_detail 1)).
Proof.
  split; [exact consistent_empty|]. split; [exact post_soup|].
  destruct (post_then_get accept_all empty_database soup soup_stored
              (soup_detail 0) consistent_empty post_soup) as (d2 & Hget & _).
  exists d2. exact Hget.
Defined.

Lemma post_then_list_witness :
  post_recipe accept_all soup empty_database = (soup_stored, inr (soup_detail 0)) ∧
  Z.of_nat (size (recipes empty_database)) < 1 ∧
  1 ≤ 9223372036854775807 ∧
  ∃ page,
    list_recipes accept_all None (Some 1) soup_stored = (soup_stored, inr page) ∧
    RecipeListResponse.mk 1 "Soup" 20 0 ∈ page.
Proof.
  assert (Z.of_nat (size (recipes empty_database)) < 1) as Hsize
    by (vm_compute; reflexivity).
  assert (1 ≤ 9223372036854775807) as Hmax by lia.
  split; [exact post_soup|]. split; [exact Hsize|]. split; [exact Hmax|].
  destruct (post_then_list accept_all empty_database soup soup_stored
              (soup_detail 0) 1 post_soup Hsize Hmax)
    as (page & Hpage & _ & Hin & _).
  exists page. split; [exact Hpage|exact Hin].
Defined.
